(** * G5U: selector resolution, state checks and the Element question

    A shallow embedding of the web module of G5U
    ([src/web/abilities/BrowseTheWeb.ts], [src/web/questions/Element.ts])
    and of the selector resolution engine described by the design
    document.  Asynchronous methods are embedded as finite programs over
    the calls they make to Playwright and to the browser; a program is
    run against an arbitrary browser, which gives the order of the calls
    and the value or the error the method ends with.  The storage
    methods are embedded over any [JSON.stringify] and [JSON.parse]; a
    printer and a parser of the integers, strings, arrays and objects of
    JSON, where the parser reads back what the printer writes, give one
    such pair to run them on. *)

From Stdlib Require Import String Ascii ZArith List Bool Lia.
From Stdlib Require Import DecimalString DecimalN.
From stdpp Require Import base option list gmap strings.

Local Open Scope string_scope.
Local Open Scope nat_scope.

(** ** The built-in JSON object

    The storage methods of the ability pass every value through
    [JSON.stringify] and [JSON.parse].  Both belong to JavaScript and not
    to the sources, so the methods are embedded over any two functions
    of that kind: [Value] is the values [JSON.stringify] returns on (a
    BigInt or an object that contains itself makes it throw, and is left
    out), [stringify] gives [None] where [JSON.stringify] gives
    [undefined], and [parse] gives [None] where [JSON.parse] throws a
    SyntaxError. *)

Module Builtin.

Class JsonObject : Type := {
  Value : Type;
  undefined : Value;
  stringify : Value -> option string;
  parse : string -> option Value
}.

End Builtin.

(** ** JSON on integers, strings, arrays and objects

    One pair of such functions, to run the methods on.  Its values are
    [undefined], [null], the booleans, the integers, negative zero,
    strings of code units below 256, and the arrays and objects of
    these.  It reads and writes as the built-in does on the texts of
    these values where an integer is below 2^53 in size and no property
    name is the text of an array index; a text with a fraction, an
    exponent or a [\u] escape of a code unit from 256 on is outside it
    and is left unread. *)

Module JSON.

(** The values of the fragment.  A number is an integer or negative
    zero: fractions, NaN and the infinities are left out, and so are
    strings with a code unit from 256 on. *)
#[warnings="-register-all"]
Inductive JsValue : Type :=
| JUndefined
| JNull
| JBool (b : bool)
| JNumber (z : Z)
| JNegZero
| JString (s : string)
| JArray (vs : list JsValue)
| JObject (props : list (string * JsValue)).

Definition doubleQuote : ascii := ascii_of_nat 34.

Definition hexDigit (n : nat) : ascii :=
  match n with
  | 0 => "0" | 1 => "1" | 2 => "2" | 3 => "3" | 4 => "4" | 5 => "5" | 6 => "6"
  | 7 => "7" | 8 => "8" | 9 => "9" | 10 => "a" | 11 => "b" | 12 => "c"
  | 13 => "d" | 14 => "e" | _ => "f"
  end%char.

Definition hexValue (c : ascii) : option nat :=
  let n := nat_of_ascii c in
  if (48 <=? n) && (n <=? 57) then Some (n - 48)
  else if (97 <=? n) && (n <=? 102) then Some (n - 87)
  else if (65 <=? n) && (n <=? 70) then Some (n - 55)
  else None.

(** How [stringify] writes one code unit inside a string literal. *)
Definition escape (c : ascii) : string :=
  let n := nat_of_ascii c in
  if n =? 34 then String "\" (String doubleQuote EmptyString)
  else if n =? 92 then "\\"
  else if n =? 8 then "\b"
  else if n =? 9 then "\t"
  else if n =? 10 then "\n"
  else if n =? 12 then "\f"
  else if n =? 13 then "\r"
  else if n <? 32 then
    String "\" (String "u" (String "0" (String "0"
      (String (hexDigit (n / 16)) (String (hexDigit (n mod 16)) EmptyString)))))
  else String c EmptyString.

Fixpoint escapeAll (s : string) : string :=
  match s with
  | EmptyString => EmptyString
  | String c r => escape c ++ escapeAll r
  end.

Definition quote (s : string) : string :=
  String doubleQuote (escapeAll s ++ String doubleQuote EmptyString).

(** The digits of an integer, which is how the built-in writes the
    integers below 10^21 in size; from there on the built-in writes an
    exponent, and that is outside the fragment. *)
Definition stringifyNumber (z : Z) : string :=
  match z with
  | Zneg p => String "-" (DecimalString.NilEmpty.string_of_uint (N.to_uint (Npos p)))
  | _ => DecimalString.NilEmpty.string_of_uint (N.to_uint (Z.to_N z))
  end.

Fixpoint joinWith (sep : string) (parts : list string) : string :=
  match parts with
  | [] => EmptyString
  | [p] => p
  | p :: ps => p ++ sep ++ joinWith sep ps
  end.

Fixpoint keep {A B : Type} (f : A -> option B) (l : list A) : list B :=
  match l with
  | [] => []
  | x :: l' =>
      match f x with
      | Some y => y :: keep f l'
      | None => keep f l'
      end
  end.

(** One property of an object, given how its value is written; a
    property whose value is [undefined] is left out. *)
Definition member (write : JsValue -> string) (kv : string * JsValue) : option string :=
  match snd kv with
  | JUndefined => None
  | _ => Some (quote (fst kv) ++ ":" ++ write (snd kv))
  end.

(** The text of a value that is not [undefined]; inside an array
    [undefined] is written [null]. *)
Fixpoint serialize (v : JsValue) : string :=
  match v with
  | JUndefined => "null"
  | JNull => "null"
  | JBool true => "true"
  | JBool false => "false"
  | JNumber z => stringifyNumber z
  | JNegZero => "0"
  | JString s => quote s
  | JArray vs => "[" ++ joinWith "," (List.map serialize vs) ++ "]"
  | JObject props => "{" ++ joinWith "," (keep (member serialize) props) ++ "}"
  end.

(** [JSON.stringify(value)]: [None] is the result [undefined]. *)
Definition stringify (v : JsValue) : option string :=
  match v with
  | JUndefined => None
  | _ => Some (serialize v)
  end.

Definition isWhitespace (c : ascii) : bool :=
  let n := nat_of_ascii c in
  (n =? 32) || (n =? 9) || (n =? 10) || (n =? 13).

Definition isDigit (c : ascii) : bool :=
  let n := nat_of_ascii c in
  (48 <=? n) && (n <=? 57).

Fixpoint skipWhitespace (s : string) : string :=
  match s with
  | String c r => if isWhitespace c then skipWhitespace r else s
  | EmptyString => EmptyString
  end.

Fixpoint takeDigits (s : string) : string * string :=
  match s with
  | String c r =>
      if isDigit c then let (ds, rest) := takeDigits r in (String c ds, rest)
      else (EmptyString, s)
  | EmptyString => (EmptyString, EmptyString)
  end.

Definition unescape (c : ascii) : option ascii :=
  let n := nat_of_ascii c in
  if n =? 34 then Some c
  else if n =? 92 then Some c
  else if n =? 47 then Some c
  else if n =? 98 then Some (ascii_of_nat 8)
  else if n =? 116 then Some (ascii_of_nat 9)
  else if n =? 110 then Some (ascii_of_nat 10)
  else if n =? 102 then Some (ascii_of_nat 12)
  else if n =? 114 then Some (ascii_of_nat 13)
  else None.

(** A [\u] escape of a code unit below 256.  The built-in reads the
    escapes of the other code units too; the fragment has no string to
    hold them and leaves such a text unread. *)
Definition unicodeEscape (h1 h2 h3 h4 : ascii) : option ascii :=
  match hexValue h1, hexValue h2, hexValue h3, hexValue h4 with
  | Some a, Some b, Some c, Some d =>
      if (a =? 0) && (b =? 0) then Some (ascii_of_nat (16 * c + d)) else None
  | _, _, _, _ => None
  end.

(** The rest of a string literal, after its opening quote. *)
Fixpoint parseChars (s : string) : option (string * string) :=
  match s with
  | EmptyString => None
  | String c r =>
      let n := nat_of_ascii c in
      if n =? 34 then Some (EmptyString, r)
      else if n =? 92 then
        match r with
        | String e r' =>
            if nat_of_ascii e =? 117 then
              match r' with
              | String h1 (String h2 (String h3 (String h4 r''))) =>
                  match unicodeEscape h1 h2 h3 h4, parseChars r'' with
                  | Some x, Some (body, rest) => Some (String x body, rest)
                  | _, _ => None
                  end
              | _ => None
              end
            else
              match unescape e, parseChars r' with
              | Some x, Some (body, rest) => Some (String x body, rest)
              | _, _ => None
              end
        | EmptyString => None
        end
      else if n <? 32 then None
      else
        match parseChars r with
        | Some (body, rest) => Some (String c body, rest)
        | None => None
        end
  end.

(** Digits of a number, after an optional sign: no leading zero, and
    nothing of a fraction or an exponent behind them.  The built-in
    reads fractions and exponents; the fragment has no number to hold
    them and leaves such a text unread. *)
Definition parseDigits (s : string) : option (N * string) :=
  let (ds, rest) := takeDigits s in
  let plain :=
    match rest with
    | String c _ =>
        let n := nat_of_ascii c in negb ((n =? 46) || (n =? 101) || (n =? 69))
    | EmptyString => true
    end in
  let canonical :=
    match ds with
    | EmptyString => false
    | String c EmptyString => true
    | String c _ => negb (nat_of_ascii c =? 48)
    end in
  if plain && canonical then
    match DecimalString.NilEmpty.uint_of_string ds with
    | Some d => Some (N.of_uint d, rest)
    | None => None
    end
  else None.

Fixpoint dropPrefix (p s : string) : option string :=
  match p with
  | EmptyString => Some s
  | String a p' =>
      match s with
      | String b s' => if Ascii.eqb a b then dropPrefix p' s' else None
      | EmptyString => None
      end
  end.

(** A later property of the same name replaces the value of the earlier
    one and keeps its place. *)
Fixpoint setProperty (k : string) (v : JsValue) (props : list (string * JsValue))
  : list (string * JsValue) :=
  match props with
  | [] => [(k, v)]
  | (k', v') :: ps =>
      if String.eqb k k' then (k', v) :: ps else (k', v') :: setProperty k v ps
  end.

(** The object of the members read, in the order they were first read.
    The built-in puts the names that are array indices first; objects
    with such names are outside the fragment. *)
Definition buildObject (members : list (string * JsValue)) : JsValue :=
  JObject (fold_left (fun props m => setProperty (fst m) (snd m) props) members []).

(** One value, given how the elements of an array and the members of an
    object are read. *)
Definition valueWith
    (elements : string -> option (list JsValue * string))
    (members : string -> option (list (string * JsValue) * string))
    (s : string) : option (JsValue * string) :=
  match skipWhitespace s with
  | EmptyString => None
  | String c r =>
      let n := nat_of_ascii c in
      if n =? 110 then
        match dropPrefix "ull" r with Some rest => Some (JNull, rest) | None => None end
      else if n =? 116 then
        match dropPrefix "rue" r with Some rest => Some (JBool true, rest) | None => None end
      else if n =? 102 then
        match dropPrefix "alse" r with Some rest => Some (JBool false, rest) | None => None end
      else if n =? 34 then
        match parseChars r with
        | Some (body, rest) => Some (JString body, rest)
        | None => None
        end
      else if n =? 45 then
        match parseDigits r with
        | Some (m, rest) =>
            Some (if N.eqb m 0 then JNegZero else JNumber (Z.opp (Z.of_N m)), rest)
        | None => None
        end
      else if isDigit c then
        match parseDigits (String c r) with
        | Some (m, rest) => Some (JNumber (Z.of_N m), rest)
        | None => None
        end
      else if n =? 91 then
        match skipWhitespace r with
        | String c' r' =>
            if nat_of_ascii c' =? 93 then Some (JArray [], r')
            else
              match elements r with
              | Some (vs, rest) => Some (JArray vs, rest)
              | None => None
              end
        | EmptyString => None
        end
      else if n =? 123 then
        match skipWhitespace r with
        | String c' r' =>
            if nat_of_ascii c' =? 125 then Some (JObject [], r')
            else
              match members r with
              | Some (ms, rest) => Some (buildObject ms, rest)
              | None => None
              end
        | EmptyString => None
        end
      else None
  end.

(** The elements of an array from the first one on, up to the closing
    bracket. *)
Definition elementsWith
    (value : string -> option (JsValue * string))
    (elements : string -> option (list JsValue * string))
    (s : string) : option (list JsValue * string) :=
  match value s with
  | Some (v, rest) =>
      match skipWhitespace rest with
      | String c r =>
          if nat_of_ascii c =? 44 then
            match elements r with
            | Some (vs, rest') => Some (v :: vs, rest')
            | None => None
            end
          else if nat_of_ascii c =? 93 then Some ([v], r)
          else None
      | EmptyString => None
      end
  | None => None
  end.

(** The members of an object from the first one on, up to the closing
    brace. *)
Definition membersWith
    (value : string -> option (JsValue * string))
    (members : string -> option (list (string * JsValue) * string))
    (s : string) : option (list (string * JsValue) * string) :=
  match skipWhitespace s with
  | String q r =>
      if nat_of_ascii q =? 34 then
        match parseChars r with
        | Some (k, rest) =>
            match skipWhitespace rest with
            | String colon r1 =>
                if nat_of_ascii colon =? 58 then
                  match value r1 with
                  | Some (v, rest1) =>
                      match skipWhitespace rest1 with
                      | String c r2 =>
                          if nat_of_ascii c =? 44 then
                            match members r2 with
                            | Some (ms, rest') => Some ((k, v) :: ms, rest')
                            | None => None
                            end
                          else if nat_of_ascii c =? 125 then Some ([(k, v)], r2)
                          else None
                      | EmptyString => None
                      end
                  | None => None
                  end
                else None
            | EmptyString => None
            end
        | None => None
        end
      else None
  | EmptyString => None
  end.

(** The three readers call each other; [fuel] bounds how deep. *)
Fixpoint parseValue (fuel : nat) (s : string) : option (JsValue * string) :=
  match fuel with
  | O => None
  | S fuel' => valueWith (parseElements fuel') (parseMembers fuel') s
  end
with parseElements (fuel : nat) (s : string) : option (list JsValue * string) :=
  match fuel with
  | O => None
  | S fuel' => elementsWith (parseValue fuel') (parseElements fuel') s
  end
with parseMembers (fuel : nat) (s : string) : option (list (string * JsValue) * string) :=
  match fuel with
  | O => None
  | S fuel' => membersWith (parseValue fuel') (parseMembers fuel') s
  end.

(** [JSON.parse(text)]: the value of the text, or [None] where
    JavaScript throws a [SyntaxError]. *)
Definition parse (text : string) : option JsValue :=
  match parseValue (S (String.length text)) text with
  | Some (v, rest) =>
      match skipWhitespace rest with
      | EmptyString => Some v
      | String _ _ => None
      end
  | None => None
  end.

Fixpoint distinct (ks : list string) : bool :=
  match ks with
  | [] => true
  | k :: ks' => negb (existsb (String.eqb k) ks') && distinct ks'
  end.

(** The values that come back as they were: no [undefined] and no
    negative zero at any depth, and no two properties of an object under
    one name. *)
Fixpoint serializable (v : JsValue) : bool :=
  match v with
  | JUndefined => false
  | JNegZero => false
  | JArray vs => forallb serializable vs
  | JObject props =>
      distinct (List.map fst props) &&
      (fix all (ps : list (string * JsValue)) : bool :=
         match ps with
         | [] => true
         | (_, x) :: ps' => serializable x && all ps'
         end) props
  | _ => true
  end.

(** How deep and how long a value is: a bound on the nested calls of
    [parseValue] on its text. *)
Fixpoint size (v : JsValue) : nat :=
  match v with
  | JArray vs =>
      S ((fix all (l : list JsValue) : nat :=
            match l with
            | [] => 0
            | x :: l' => S (size x + all l')
            end) vs)
  | JObject props =>
      S ((fix all (l : list (string * JsValue)) : nat :=
            match l with
            | [] => 0
            | (_, x) :: l' => S (size x + all l')
            end) props)
  | _ => 1
  end.

(** What may follow a number: not a digit, nor the start of a fraction
    or of an exponent. *)
Definition delimited (rest : string) : bool :=
  match rest with
  | EmptyString => true
  | String c _ =>
      let n := nat_of_ascii c in
      negb (isDigit c) && negb ((n =? 46) || (n =? 101) || (n =? 69))
  end.

(** A text that opens with a value opens with neither white space nor
    a closing bracket or brace. *)
Definition opens (s : string) : bool :=
  match s with
  | String c _ =>
      negb (isWhitespace c) && negb (nat_of_ascii c =? 93) && negb (nat_of_ascii c =? 125)
  | EmptyString => false
  end.

(** The same bound over the elements of an array and over the properties
    of an object. *)
Definition sizes (vs : list JsValue) : nat :=
  fold_right (fun x n => S (size x + n)) 0 vs.

Definition sizesOf (props : list (string * JsValue)) : nat :=
  fold_right (fun kv n => S (size (snd kv) + n)) 0 props.

(** A value is read back when its text, followed by anything a number
    may stand before, is read with enough fuel. *)
Definition reads (v : JsValue) : Prop :=
  serializable v = true ->
  forall fuel rest, size v <= fuel -> delimited rest = true ->
  parseValue fuel (serialize v ++ rest) = Some (v, rest).

(** The text of a value is at least as long as the value is big. *)
Definition fits (v : JsValue) : Prop :=
  serializable v = true -> size v <= String.length (serialize v).

#[export] Instance fragment : Builtin.JsonObject := {|
  Builtin.Value := JsValue;
  Builtin.undefined := JUndefined;
  Builtin.stringify := stringify;
  Builtin.parse := parse
|}.

End JSON.

(** ** Values and effects shared by the two source files *)

Module Web.

(** What a rejected promise carries.  [JsError] is [new Error(message)],
    of the sources or of Playwright; [TimeoutError] is what a wait of
    Playwright gives when it gives up, and it names the limit that was
    reached; [SyntaxError] comes from [JSON.parse]. *)
Inductive Error : Type :=
| JsError (message : string)
| TimeoutError (limit : nat)
| SyntaxError.

(** The [name] of an error. *)
Definition name (e : Error) : string :=
  match e with
  | JsError _ => "Error"
  | TimeoutError _ => "TimeoutError"
  | SyntaxError => "SyntaxError"
  end.

Inductive Result (A : Type) : Type :=
| Ok (a : A)
| Err (e : Error).
Arguments Ok {A} a.
Arguments Err {A} e.

(** [string | RegExp]: an expected text or value. *)
Inductive Pattern : Type :=
| Text (s : string)
| RegExp (source : string).

(** [string | RegExp | (string | RegExp)[]]: the payload of an Element. *)
Inductive Payload : Type :=
| Single (p : Pattern)
| Multiple (ps : list Pattern).

(** Playwright's [Locator]: a reference the sources hand on and never
    look into. *)
Inductive Locator : Type :=
| LocatorRef (id : nat).

(** [Selector] and [SelectorOptions] are declared in [../types], which is
    not among the sources.  Their shape is read off the uses: an Element
    stores a string as its default selector and the tests pass locators;
    the options carry [hasText], [subSelector] (a selector with options of
    its own), [timeout] and [state]. *)
Inductive Selector : Type :=
| Query (q : string)
| Located (l : Locator).

#[warnings="-register-all"]
Inductive SelectorOptions : Type :=
| mkSelectorOptions
    (hasText : option string)
    (subSelector : option (Selector * SelectorOptions))
    (timeout : option nat)
    (state : option string).

Definition hasText (o : SelectorOptions) : option string :=
  match o with mkSelectorOptions h _ _ _ => h end.
Definition subSelector (o : SelectorOptions) : option (Selector * SelectorOptions) :=
  match o with mkSelectorOptions _ s _ _ => s end.
Definition timeout (o : SelectorOptions) : option nat :=
  match o with mkSelectorOptions _ _ t _ => t end.
Definition state (o : SelectorOptions) : option string :=
  match o with mkSelectorOptions _ _ _ s => s end.

(** [{ ...options, state: s }] where [options] may be undefined. *)
Definition withState (options : option SelectorOptions) (s : string) : SelectorOptions :=
  match options with
  | Some o => mkSelectorOptions (hasText o) (subSelector o) (timeout o) (Some s)
  | None => mkSelectorOptions None None None (Some s)
  end.

(** [options?.timeout] *)
Definition timeoutOf (options : option SelectorOptions) : option nat :=
  match options with
  | Some o => timeout o
  | None => None
  end.

(** The assertions of [expect(locator)] the ability uses. *)
Inductive Matcher : Type :=
| toBeVisible
| toBeHidden
| toBeEnabled
| toBeDisabled
| toBeEditable
| toHaveText (expected : Payload)
| toHaveValue (expected : Pattern).

Inductive StorageArea : Type :=
| localStorage
| sessionStorage.

(** The calls a method makes outside itself, in the order it awaits
    them: the actor is asked for the ability, Playwright for a locator
    and for an assertion on it, the page for an item of its storage. *)
Inductive Call : Type :=
| withAbilityTo
| recursiveLocatorLookup (selector : Selector) (options : SelectorOptions)
| expect (locator : Locator) (negated : bool) (m : Matcher) (timeout : option nat)
| getItem (area : StorageArea) (k : string)
| setItem (area : StorageArea) (k : string) (v : string).

Definition Answer (c : Call) : Type :=
  match c with
  | withAbilityTo => unit
  | recursiveLocatorLookup _ _ => Locator
  | expect _ _ _ _ => unit
  | getItem _ _ => option string
  | setItem _ _ _ => unit
  end.

(** An asynchronous method: it returns, throws, or awaits a call and goes
    on with its answer. *)
Inductive Prog (A : Type) : Type :=
| Ret (a : A)
| Throw (e : Error)
| Await (c : Call) (k : Answer c -> Prog A).
Arguments Ret {A} a.
Arguments Throw {A} e.
Arguments Await {A} c k.

Fixpoint bind {A B : Type} (f : A -> Prog B) (p : Prog A) : Prog B :=
  match p with
  | Ret a => f a
  | Throw e => Throw e
  | Await c k => Await c (fun x => bind f (k x))
  end.

#[export] Instance Prog_ret : MRet Prog := @Ret.
#[export] Instance Prog_bind : MBind Prog := @bind.

Definition await (c : Call) : Prog (Answer c) := Await c Ret.

(** The world a method runs in.  What Playwright and the actor answer is
    left open: a page state of any type [P] and three functions on it. *)
Record Playwright (P : Type) : Type := mkPlaywright {
  abilityOf : P -> P * Result unit;
  lookup : Selector -> SelectorOptions -> P -> P * Result Locator;
  assertion : Locator -> bool -> Matcher -> option nat -> P -> P * Result unit
}.
Arguments abilityOf {P} _ _.
Arguments lookup {P} _ _ _ _.
Arguments assertion {P} _ _ _ _ _ _.

Record Browser (P : Type) : Type := mkBrowser {
  page : P;
  localItems : gmap string string;
  sessionItems : gmap string string
}.
Arguments mkBrowser {P} _ _ _.
Arguments page {P} _.
Arguments localItems {P} _.
Arguments sessionItems {P} _.

Definition items {P : Type} (area : StorageArea) (b : Browser P) : gmap string string :=
  match area with
  | localStorage => localItems b
  | sessionStorage => sessionItems b
  end.

Definition setItems {P : Type} (area : StorageArea) (m : gmap string string)
    (b : Browser P) : Browser P :=
  match area with
  | localStorage => mkBrowser (page b) m (sessionItems b)
  | sessionStorage => mkBrowser (page b) (localItems b) m
  end.

Definition setPage {P : Type} (p : P) (b : Browser P) : Browser P :=
  mkBrowser p (localItems b) (sessionItems b).

(** One call answered by the browser. *)
Definition answer {P : Type} (pw : Playwright P) (c : Call) (b : Browser P)
  : Browser P * Result (Answer c) :=
  match c as c0 return Browser P * Result (Answer c0) with
  | withAbilityTo =>
      let (p, r) := abilityOf pw (page b) in (setPage p b, r)
  | recursiveLocatorLookup selector options =>
      let (p, r) := lookup pw selector options (page b) in (setPage p b, r)
  | expect locator negated m t =>
      let (p, r) := assertion pw locator negated m t (page b) in (setPage p b, r)
  | getItem area k => (b, Ok (items area b !! k))
  | setItem area k v => (setItems area (<[k := v]> (items area b)) b, Ok tt)
  end.

Record Outcome (P A : Type) : Type := mkOutcome {
  final : Browser P;
  calls : list Call;
  result : Result A
}.
Arguments mkOutcome {P A} _ _ _.
Arguments final {P A} _.
Arguments calls {P A} _.
Arguments result {P A} _.

(** Running a method: the calls it made, in order, the browser it
    leaves, and what its promise settles to.  A call that fails rejects
    the promise there. *)
Fixpoint run {P A : Type} (pw : Playwright P) (p : Prog A) (b : Browser P)
  : Outcome P A :=
  match p with
  | Ret a => mkOutcome b [] (Ok a)
  | Throw e => mkOutcome b [] (Err e)
  | Await c k =>
      match answer pw c b with
      | (b', Ok x) =>
          let o := run pw (k x) b' in
          mkOutcome (final o) (c :: calls o) (result o)
      | (b', Err e) => mkOutcome b' [c] (Err e)
      end
  end.

(** A page where nothing changes: the actor has the ability, every
    lookup answers one locator and every assertion holds. *)
Definition stillPage : Playwright unit :=
  mkPlaywright unit
    (fun p => (p, Ok tt))
    (fun _ _ p => (p, Ok (LocatorRef 0)))
    (fun _ _ _ _ p => (p, Ok tt)).

Definition emptyBrowser : Browser unit := mkBrowser tt ∅ ∅.

(** The error Playwright gives for an assertion on a locator that stands
    for two elements; it is no timeout. *)
Definition strictModeViolation : Error :=
  JsError "strict mode violation: locator resolved to 2 elements".

(** A page where every lookup answers such a locator, so that every
    assertion fails with that error. *)
Definition twofoldPage : Playwright unit :=
  mkPlaywright unit
    (fun p => (p, Ok tt))
    (fun _ _ p => (p, Ok (LocatorRef 0)))
    (fun _ _ _ _ p => (p, Err strictModeViolation)).

(** What calling a method gives at once.  A method declared [async]
    gives a promise whatever its body does, so a [throw] in the body is
    the rejection of that promise; a method not so declared may throw at
    the call. *)
Inductive Called (A : Type) : Type :=
| Threw (e : Error)
| Promised (p : Prog A).
Arguments Threw {A} e.
Arguments Promised {A} p.

End Web.

(** ** src/web/abilities/BrowseTheWeb.ts *)

Module BrowseTheWeb.
Import Web.

(** [await expect(await recursiveLocatorLookup({ page, selector, options:
    { ...options, state } })).matcher({ timeout: options?.timeout });
    return Promise.resolve(true)], the body every check below is made of. *)
Definition expectAfterLookup (selector : Selector) (options : option SelectorOptions)
    (requiredState : string) (negated : bool) (m : Matcher) : Prog bool :=
  locator ← await (recursiveLocatorLookup selector (withState options requiredState));
  _ ← await (expect locator negated m (timeoutOf options));
  mret true.

Definition checkVisibilityState (selector : Selector) (mode : string)
    (options : option SelectorOptions) : Prog bool :=
  if String.eqb mode "visible"
  then expectAfterLookup selector options "visible" false toBeVisible
  else expectAfterLookup selector options "hidden" false toBeHidden.

Definition checkEnabledState (selector : Selector) (mode : string)
    (options : option SelectorOptions) : Prog bool :=
  if String.eqb mode "enabled"
  then expectAfterLookup selector options "visible" false toBeEnabled
  else expectAfterLookup selector options "visible" false toBeDisabled.

Definition checkEditableState (selector : Selector) (mode : string)
    (options : option SelectorOptions) : Prog bool :=
  if String.eqb mode "editable"
  then expectAfterLookup selector options "visible" false toBeEditable
  else expectAfterLookup selector options "visible" true toBeEditable.

Definition checkSelectorText (selector : Selector) (text : Payload) (mode : string)
    (options : option SelectorOptions) : Prog bool :=
  if String.eqb mode "has"
  then expectAfterLookup selector options "visible" false (toHaveText text)
  else expectAfterLookup selector options "visible" true (toHaveText text).

Definition checkSelectorValue (selector : Selector) (value : Pattern) (mode : string)
    (options : option SelectorOptions) : Prog bool :=
  if String.eqb mode "has"
  then expectAfterLookup selector options "visible" false (toHaveValue value)
  else expectAfterLookup selector options "visible" true (toHaveValue value).

Section Storage.

Context {J : Builtin.JsonObject}.

(** The function handed to [page.evaluate] by the two getters: a stored
    text that is truthy (not empty) is parsed, anything else gives
    [undefined]. *)
Definition getStorageItem (area : StorageArea) (key : string) : Prog Builtin.Value :=
  value ← await (getItem area key);
  match value with
  | Some (String c r) =>
      match Builtin.parse (String c r) with
      | Some v => mret v
      | None => Throw SyntaxError
      end
  | _ => mret Builtin.undefined
  end.

(** The function handed to [page.evaluate] by the two setters;
    [setItem] turns the [undefined] that [JSON.stringify] gives for
    some values into the text of that name. *)
Definition setStorageItem (area : StorageArea) (key : string) (value : Builtin.Value)
  : Prog unit :=
  _ ← await (setItem area key (default "undefined" (Builtin.stringify value)));
  mret tt.

Definition getLocalStorageItem (key : string) : Prog Builtin.Value :=
  getStorageItem localStorage key.

Definition setLocalStorageItem (key : string) (value : Builtin.Value) : Prog unit :=
  setStorageItem localStorage key value.

Definition getSessionStorageItem (key : string) : Prog Builtin.Value :=
  getStorageItem sessionStorage key.

Definition setSessionStorageItem (key : string) (value : Builtin.Value) : Prog unit :=
  setStorageItem sessionStorage key value.

End Storage.

(** The five state-checking operations with their arguments. *)
Inductive StateCheck : Type :=
| VisibilityState (selector : Selector) (mode : string) (options : option SelectorOptions)
| EnabledState (selector : Selector) (mode : string) (options : option SelectorOptions)
| EditableState (selector : Selector) (mode : string) (options : option SelectorOptions)
| SelectorText (selector : Selector) (text : Payload) (mode : string)
    (options : option SelectorOptions)
| SelectorValue (selector : Selector) (value : Pattern) (mode : string)
    (options : option SelectorOptions).

Definition check (c : StateCheck) : Prog bool :=
  match c with
  | VisibilityState s m o => checkVisibilityState s m o
  | EnabledState s m o => checkEnabledState s m o
  | EditableState s m o => checkEditableState s m o
  | SelectorText s t m o => checkSelectorText s t m o
  | SelectorValue s v m o => checkSelectorValue s v m o
  end.

End BrowseTheWeb.

(** ** src/web/questions/Element.ts *)

Module Element.
Import Web.

(** The fields of the class.  [mode] and [checkMode] are strings, as they
    are when the code runs; the type annotations of the source list the
    values the compiler lets through. *)
Record Element : Type := mkElement {
  mode : string;
  selector : Selector;
  payload : Payload;
  options : option SelectorOptions;
  checkMode : string
}.

(** [new Element(checkMode)], with the field initialisers of the class. *)
Definition new (checkMode : string) : Element :=
  mkElement "visible" (Query EmptyString) (Single (Text EmptyString)) None checkMode.

Definition toBe : Element := new "toBe".
Definition notToBe : Element := new "notToBe".
Definition toHave : Element := new "toBe".
Definition notToHave : Element := new "notToBe".

Definition visible (selector : Selector) (options : option SelectorOptions)
    (this : Element) : Element :=
  mkElement "visible" selector (payload this) options (checkMode this).

Definition enabled (selector : Selector) (options : option SelectorOptions)
    (this : Element) : Element :=
  mkElement "enabled" selector (payload this) options (checkMode this).

Definition text (selector : string) (text : Payload) (options : option SelectorOptions)
    (this : Element) : Element :=
  mkElement "text" (Query selector) text options (checkMode this).

Definition value (selector : string) (value : Pattern) (options : option SelectorOptions)
    (this : Element) : Element :=
  mkElement "value" (Query selector) (Single value) options (checkMode this).

Definition editable (selector : Selector) (options : option SelectorOptions)
    (this : Element) : Element :=
  mkElement "editable" selector (payload this) options (checkMode this).

(** [this.checkMode === "toBe" ? positive : negative] *)
Definition polarity (this : Element) (positive negative : string) : string :=
  if String.eqb (checkMode this) "toBe" then positive else negative.

(** [BrowseTheWeb.as(actor).method(...)]: the ability is fetched from the
    actor, then its method runs. *)
Definition asActor {A : Type} (method : Prog A) : Prog A :=
  _ ← await withAbilityTo; method.

Definition answeredBy (this : Element) : Prog bool :=
  if String.eqb (mode this) "visible" then
    asActor (BrowseTheWeb.checkVisibilityState (selector this)
               (polarity this "visible" "hidden") (options this))
  else if String.eqb (mode this) "enabled" then
    asActor (BrowseTheWeb.checkEnabledState (selector this)
               (polarity this "enabled" "disabled") (options this))
  else if String.eqb (mode this) "editable" then
    asActor (BrowseTheWeb.checkEditableState (selector this)
               (polarity this "editable" "notEditable") (options this))
  else if String.eqb (mode this) "text" then
    asActor (BrowseTheWeb.checkSelectorText (selector this) (payload this)
               (polarity this "has" "hasNot") (options this))
  else if String.eqb (mode this) "value" then
    match payload this with
    | Single p =>
        asActor (BrowseTheWeb.checkSelectorValue (selector this) p
                   (polarity this "has" "hasNot") (options this))
    | Multiple _ =>
        Throw (JsError "Element.value: incompatible payload! Arrays can not be checked.")
    end
  else Throw (JsError "Unknown mode: Element.answeredBy").

(** [answeredBy] is declared [async]. *)
Definition call (this : Element) : Called bool := Promised (answeredBy this).

(** What the public interface offers after a factory: the five mode
    operators with their arguments. *)
Inductive ModeOperator : Type :=
| Visible (selector : Selector) (options : option SelectorOptions)
| Enabled (selector : Selector) (options : option SelectorOptions)
| HasText (selector : string) (expected : Payload) (options : option SelectorOptions)
| HasValue (selector : string) (expected : Pattern) (options : option SelectorOptions)
| Editable (selector : Selector) (options : option SelectorOptions).

Definition apply (op : ModeOperator) (this : Element) : Element :=
  match op with
  | Visible s o => visible s o this
  | Enabled s o => enabled s o this
  | HasText s t o => text s t o this
  | HasValue s v o => value s v o this
  | Editable s o => editable s o this
  end.

(** Every mode operator returns [this], so calls can follow each other. *)
Definition applyAll (ops : list ModeOperator) (this : Element) : Element :=
  fold_left (fun e op => apply op e) ops this.

Inductive Factory : Type :=
| ToBe
| NotToBe
| ToHave
| NotToHave.

Definition make (f : Factory) : Element :=
  match f with
  | ToBe => toBe
  | NotToBe => notToBe
  | ToHave => toHave
  | NotToHave => notToHave
  end.

(** The modes answeredBy has a branch for. *)
Definition handledModes : list string :=
  ["visible"; "enabled"; "editable"; "text"; "value"].

(** What holds of every Element the public interface can build: its mode
    is one of the five, and in mode "value" its payload is no array. *)
Definition constructible (e : Element) : Prop :=
  In (mode e) handledModes /\
  (mode e = "value" -> exists p, payload e = Single p).

End Element.

(** ** The selector resolution engine

    [recursiveLocatorLookup] lives in [../utils], which is not among the
    sources; the engine below follows the design document. *)

Module Engine.

(** Modelled from the spec: the error taxonomy of section 7, for the
    resolver that is outside the sources. *)
Inductive Error : Type :=
| InvalidSpec
| LookupTimeout (elapsed limit : nat)
| ResolutionError.

Inductive Result (A : Type) : Type :=
| Ok (a : A)
| Err (e : Error).
Arguments Ok {A} a.
Arguments Err {A} e.

(** Modelled from the spec: the StateKind of section 3. *)
Inductive StateKind : Type :=
| attached
| visible
| hidden
| enabled
| disabled
| editable
| not_editable
| has_text
| has_value.

(** The modifier keys, as [hover] of the ability lists them. *)
Inductive Modifier : Type :=
| Alt
| Control
| Meta
| Shift.

#[export] Instance Modifier_eq_dec : EqDecision Modifier.
Proof. solve_decision. Defined.

Definition Modifier_code (m : Modifier) : nat :=
  match m with Alt => 0 | Control => 1 | Meta => 2 | Shift => 3 end.

Definition Modifier_of_code (n : nat) : Modifier :=
  match n with 0 => Alt | 1 => Control | 2 => Meta | _ => Shift end.

#[export] Instance Modifier_countable : Countable Modifier.
Proof.
  apply (inj_countable' Modifier_code Modifier_of_code).
  intros []; reflexivity.
Defined.

(** Modelled from the spec: the ScopeProvider the engine consumes, which
    is outside the sources.  [query] finds the descendants of a node that
    match a query string, [textOf] reads the normalized rendered text of
    a node; [Regex] with [test] is the pattern kind of text filter and
    [usable] tells a usable query string, both opaque to the engine. *)
Class ScopeProvider : Type := {
  Node : Type;
  Regex : Type;
  query : Node -> string -> list Node;
  textOf : Node -> string;
  test : Regex -> string -> bool;
  usable : string -> bool
}.

(** Case-sensitive substring containment. *)
Fixpoint contains (needle haystack : string) : bool :=
  String.prefix needle haystack ||
  match haystack with
  | String _ rest => contains needle rest
  | EmptyString => false
  end.

(** The inner value where there is one, else the outer one. *)
Definition orElse {A : Type} (inner outer : option A) : option A :=
  match inner with
  | Some x => Some x
  | None => outer
  end.

(** The value set deepest in a list of levels given outermost first. *)
Definition innermostSet {A : Type} (own : list (option A)) : option A :=
  fold_left (fun outer inner => orElse inner outer) own None.

Section Resolution.

Context {SP : ScopeProvider}.

(** Modelled from the spec: the [hasText] of a chain, [string|pattern]. *)
Inductive TextFilter : Type :=
| Substring (s : string)
| Matching (r : Regex).

(** Modelled from the spec: the SelectorSpec of section 3, as the tagged
    variant of section 9. *)
#[warnings="-register-all"]
Inductive SelectorSpec : Type :=
| Literal (q : string)
| Chain (base : string)
        (hasText : option TextFilter)
        (subSelector : option SelectorSpec)
        (state : option StateKind)
        (timeout : option nat)
        (modifiers : option (gset Modifier)).

(** Modelled from the spec: the [options] of [resolve]. *)
Record Options : Type := mkOptions {
  optHasText : option TextFilter;
  optTimeout : option nat;
  optState : option StateKind;
  optModifiers : option (gset Modifier)
}.

(** Modelled from the spec: a scope is the page or the region selected by
    the previous chain link, itself a query with a filter in a scope. *)
Inductive Scope : Type :=
| Page (root : Node)
| Resolved (scope : Scope) (finalQuery : string) (textFilter : option TextFilter).

(** Modelled from the spec: a Handle is bound to
    [(scope, finalQuery, textFilter?)] and holds no nodes. *)
Record Handle : Type := mkHandle {
  scope : Scope;
  finalQuery : string;
  textFilter : option TextFilter
}.

Definition asScope (h : Handle) : Scope :=
  Resolved (scope h) (finalQuery h) (textFilter h).

(** Modelled from the spec: [waitForPredicate] of the ScopeProvider, the
    one bounded wait for a state on a handle.  It answers true when the
    state holds before the timeout and fails with [LookupTimeout]
    otherwise. *)
Class WaitPolicy : Type := {
  waitForPredicate : Handle -> StateKind -> nat -> Result bool
}.

Context {WP : WaitPolicy}.

(** The default timeout, in milliseconds. *)
Definition defaultTimeout : nat := 30 * 1000.

(** Modelled from the spec: the text predicate of a filter on one node,
    which the missing resolver applies to the candidates of a level. *)
Definition accepts (f : option TextFilter) (n : Node) : bool :=
  match f with
  | None => true
  | Some (Substring s) => contains s (textOf n)
  | Some (Matching r) => test r (textOf n)
  end.

(** What [base] matches in a region, before any text filter. *)
Definition matched (q : string) (region : list Node) : list Node :=
  flat_map (fun n => query n q) region.

(** Modelled from the spec: one level of narrowing on a region, the
    matches of the query below each node of the region that pass the
    filter. *)
Definition narrow (region : list Node) (q : string) (f : option TextFilter) : list Node :=
  flat_map (fun n => List.filter (accepts f) (query n q)) region.

(** Modelled from the spec: the nodes a scope stands for once it is
    queried; nothing is looked up before. *)
Fixpoint nodes (s : Scope) : list Node :=
  match s with
  | Page root => [root]
  | Resolved s' q f => narrow (nodes s') q f
  end.

Definition effectiveScope (h : Handle) : list Node := nodes (asScope h).

(** Modelled from the spec: the Literal case of [resolve], for the
    resolver that is outside the sources.  The query string is passed on
    as it is and nothing is looked up. *)
Definition resolveLiteral (scope : Scope) (q : string) (options : Options) : Handle :=
  mkHandle scope q (optHasText options).

(** Modelled from the spec: what a chain level of the missing resolver
    hands to the level below, its own state, timeout and modifiers where
    it sets them, what it inherited where it does not; its text filter
    stays at its own level. *)
Definition mergeDown (state : option StateKind) (timeout : option nat)
    (modifiers : option (gset Modifier)) (inherited : Options) : Options :=
  mkOptions None
            (orElse timeout (optTimeout inherited))
            (orElse state (optState inherited))
            (orElse modifiers (optModifiers inherited)).

Definition atLevel (f : option TextFilter) (merged : Options) : Options :=
  mkOptions f (optTimeout merged) (optState merged) (optModifiers merged).

(** Modelled from the spec: the recursive descent of section 4.2.  Next
    to the deepest handle it gives the state, timeout and modifiers in
    force at the deepest level, for the wait that follows. *)
Fixpoint resolveWith (scope : Scope) (spec : SelectorSpec) (options : Options)
  : Result (Handle * Options) :=
  match spec with
  | Literal q => Ok (resolveLiteral scope q options, options)
  | Chain base hasText subSelector state timeout modifiers =>
      if usable base then
        let merged := mergeDown state timeout modifiers options in
        let H := resolveLiteral scope base (atLevel hasText merged) in
        match subSelector with
        | Some sub => resolveWith (asScope H) sub merged
        | None => Ok (H, atLevel hasText merged)
        end
      else Err InvalidSpec
  end.

Definition resolve (scope : Scope) (spec : SelectorSpec) (options : Options)
  : Result Handle :=
  match resolveWith scope spec options with
  | Ok (h, _) => Ok h
  | Err e => Err e
  end.

(** Modelled from the spec: using a handle runs its query; no match is a
    [ResolutionError] then. *)
Definition queryHandle (h : Handle) : Result (list Node) :=
  match effectiveScope h with
  | [] => Err ResolutionError
  | n :: ns => Ok (n :: ns)
  end.

(** Modelled from the spec: the wait coupling of section 4.3, which is
    outside the sources.  After the descent, a requested state is waited
    for once, for the requested timeout or the default one; a wait that
    fails is the failure of the whole call. *)
Definition resolveAndWait (scope : Scope) (spec : SelectorSpec) (options : Options)
  : Result Handle :=
  match resolveWith scope spec options with
  | Ok (h, inForce) =>
      match optState inForce with
      | None => Ok h
      | Some requested =>
          match waitForPredicate h requested
                  (default defaultTimeout (optTimeout inForce)) with
          | Ok _ => Ok h
          | Err e => Err e
          end
      end
  | Err e => Err e
  end.

(** The levels of a spec, outermost first, as pairs of a query and a
    filter; a literal takes its filter from the options. *)
Fixpoint levels (spec : SelectorSpec) (inherited : option TextFilter)
  : list (string * option TextFilter) :=
  match spec with
  | Literal q => [(q, inherited)]
  | Chain base hasText subSelector _ _ _ =>
      (base, hasText) ::
      match subSelector with
      | Some sub => levels sub None
      | None => []
      end
  end.

Fixpoint depth (spec : SelectorSpec) : nat :=
  match spec with
  | Literal _ => 1
  | Chain _ _ subSelector _ _ _ =>
      S (match subSelector with Some sub => depth sub | None => 0 end)
  end.

(** The base of every chain level is a usable query string. *)
Fixpoint wellFormed (spec : SelectorSpec) : bool :=
  match spec with
  | Literal _ => true
  | Chain base _ subSelector _ _ _ =>
      usable base && match subSelector with Some sub => wellFormed sub | None => true end
  end.

(** The query of the outermost level. *)
Definition baseOf (spec : SelectorSpec) : string :=
  match spec with
  | Literal q => q
  | Chain base _ _ _ _ _ => base
  end.

(** The per-level narrowing applied level after level. *)
Definition narrowAll (region : list Node) (ls : list (string * option TextFilter))
  : list Node :=
  fold_left (fun r l => narrow r (fst l) (snd l)) ls region.

Definition scopeAll (s : Scope) (ls : list (string * option TextFilter)) : Scope :=
  fold_left (fun s' l => Resolved s' (fst l) (snd l)) ls s.

(** What each level sets of its own, outermost level first. *)
Fixpoint ownStates (spec : SelectorSpec) : list (option StateKind) :=
  match spec with
  | Literal _ => []
  | Chain _ _ subSelector state _ _ =>
      state :: match subSelector with Some sub => ownStates sub | None => [] end
  end.

Fixpoint ownTimeouts (spec : SelectorSpec) : list (option nat) :=
  match spec with
  | Literal _ => []
  | Chain _ _ subSelector _ timeout _ =>
      timeout :: match subSelector with Some sub => ownTimeouts sub | None => [] end
  end.

Fixpoint ownModifiers (spec : SelectorSpec) : list (option (gset Modifier)) :=
  match spec with
  | Literal _ => []
  | Chain _ _ subSelector _ _ modifiers =>
      modifiers :: match subSelector with Some sub => ownModifiers sub | None => [] end
  end.

End Resolution.

Arguments TextFilter : clear implicits.
Arguments SelectorSpec : clear implicits.
Arguments Options : clear implicits.
Arguments Scope : clear implicits.
Arguments Handle : clear implicits.
Arguments WaitPolicy : clear implicits.

(** A small document tree and its provider, to run the engine on: a
    query [#x] finds the descendants with id [x], any other query the
    descendants with that tag; a pattern is a text to be matched as a
    whole; every query but the empty one is usable. *)
#[warnings="-register-all"]
Inductive Dom : Type :=
| Tag (name id text : string) (children : list Dom).

Fixpoint descendants (d : Dom) : list Dom :=
  match d with
  | Tag _ _ _ children =>
      (fix all (cs : list Dom) : list Dom :=
         match cs with
         | [] => []
         | c :: cs' => c :: descendants c ++ all cs'
         end) children
  end.

Fixpoint renderedText (d : Dom) : string :=
  match d with
  | Tag _ _ text children =>
      (text ++
       (fix all (cs : list Dom) : string :=
          match cs with
          | [] => EmptyString
          | c :: cs' => renderedText c ++ all cs'
          end) children)%string
  end.

Definition selects (q : string) (d : Dom) : bool :=
  match d, q with
  | Tag _ id _ _, String "#" wanted => String.eqb id wanted
  | Tag name _ _ _, _ => String.eqb name q
  end.

#[export] Instance DomProvider : ScopeProvider := {|
  Node := Dom;
  Regex := string;
  query := fun d q => List.filter (selects q) (descendants d);
  textOf := renderedText;
  test := String.eqb;
  usable := fun q => negb (String.eqb q EmptyString)
|}.

(** A page that does not change while it is waited on: a state holds
    within the timeout if it holds at once.  The positive states hold of
    a handle that stands for a node, the negative ones of one that stands
    for none. *)
#[export] Instance StillPage : WaitPolicy DomProvider := {|
  waitForPredicate := fun h requested limit =>
    let present := negb (Nat.eqb (length (effectiveScope h)) 0) in
    let holds :=
      match requested with
      | hidden | disabled | not_editable => negb present
      | _ => present
      end in
    if holds then Ok true else Err (LookupTimeout limit limit)
|}.

(** Scenario A of the design document. *)
Definition spanFoo : Dom := Tag "span" EmptyString "Foo" [].
Definition spanBar : Dom := Tag "span" EmptyString "Bar" [].
Definition divA : Dom := Tag "div" "a" EmptyString [spanFoo; spanBar].
Definition document : Dom := Tag "html" EmptyString EmptyString [divA; spanFoo].

Definition scenarioA : SelectorSpec DomProvider :=
  Chain "#a" None
        (Some (Chain "span" (Some (Substring "Foo")) None (Some visible) None None))
        (Some hidden) (Some 500) None.

(** Scenario B of the design document, and the same query with no state
    to wait for. *)
Definition scenarioB : SelectorSpec DomProvider :=
  Chain "#missing" None None (Some visible) (Some 500) None.

Definition missing : SelectorSpec DomProvider :=
  Chain "#missing" None None None None None.

Definition noOptions : Options DomProvider := mkOptions None None None None.

Definition page : Scope DomProvider := @Page DomProvider document.

Definition withinA : Scope DomProvider := Resolved page "#a" None.

(** What Scenario A resolves to, and the settings then in force. *)
Definition handleA : Handle DomProvider :=
  mkHandle withinA "span" (Some (Substring "Foo")).

Definition settingsA : Options DomProvider :=
  mkOptions (Some (Substring "Foo")) (Some 500) (Some visible) None.

End Engine.

(** ** The Set action (second part of the ability file) *)

Module SetAction.
Import Web.

Section Storage.

Context {J : Builtin.JsonObject}.

(** The fields of the class [Set]; [payload] is the object
    [{ key, value }] the factories build. *)
Record Action : Type := mkSet {
  mode : string;
  key : string;
  value : Builtin.Value
}.

Definition sessionStorageItem (key : string) (value : Builtin.Value) : Action :=
  mkSet "sessionStorage" key value.

Definition localStorageItem (key : string) (value : Builtin.Value) : Action :=
  mkSet "localStorage" key value.

Definition performAs (this : Action) : Prog unit :=
  if String.eqb (mode this) "sessionStorage" then
    Element.asActor (BrowseTheWeb.setSessionStorageItem (key this) (value this))
  else if String.eqb (mode this) "localStorage" then
    Element.asActor (BrowseTheWeb.setLocalStorageItem (key this) (value this))
  else Throw (JsError "Error: no match for Set.performAs()!").

End Storage.

Arguments Action : clear implicits.

End SetAction.

(** ** The other methods of the ability

    The methods the state checks leave out act on a locator, assert on
    the page, or delete an item of the storage.  They make calls the
    checks do not make, so their programs range over a wider set of
    calls, of which the earlier ones are a part. *)

Module Actions.
Import Web.

(** [string | { value?, label?, index? }], the argument of
    [selectOption]. *)
Inductive OptionChoice : Type :=
| byText (s : string)
| byFields (value label : option string) (index : option nat).

(** What the ability does to a locator. *)
Inductive Gesture : Type :=
| hover (modifiers : option (list Engine.Modifier))
| check
| fill (input : string)
| type (input : string)
| click
| dblclick
| selectOption (choice : OptionChoice)
| dragTo (target : Locator) (x y : nat).

(** [expect(page)] as the ability uses it. *)
Inductive PageMatcher : Type :=
| toHaveURL (expected : Pattern)
| toHaveTitle (expected : Pattern).

(** [ScreenOptions] is declared in [../types], which is not among the
    sources; the ability hands it to the assertion as it is, and its
    documentation names a timeout. *)
Record ScreenOptions : Type := mkScreenOptions {
  screenTimeout : option nat
}.

(** [RequestMethod] of [../constants]; this source names one member. *)
Inductive RequestMethod : Type :=
| DELETE
| OtherMethod (name : string).

(** A response of the API ability, which the sources hand on only. *)
Inductive Response : Type :=
| ResponseRef (id : nat).

(** [SelectorOptions & { modifiers? }], the options of [hover]. *)
Record HoverOptions : Type := mkHoverOptions {
  lookupOptions : SelectorOptions;
  modifiers : option (list Engine.Modifier)
}.

(** [lookupPlain] is the lookup called with no options, [lookupHovering]
    the lookup called with the options of [hover], modifiers and all. *)
Inductive Call : Type :=
| earlier (c : Web.Call)
| lookupPlain (selector : Selector)
| lookupHovering (selector : Selector) (options : HoverOptions)
| perform (locator : Locator) (g : Gesture)
| expectPage (negated : bool) (m : PageMatcher) (options : option ScreenOptions)
| removeItem (area : StorageArea) (k : string)
| useAPIAs
| sendRequest (method : RequestMethod) (url : string) (headers : gmap string string)
    (responseBodyFormat : string).

(** [selectOption] gives the values it selected, the other gestures
    nothing. *)
Definition Done (g : Gesture) : Type :=
  match g with
  | selectOption _ => list string
  | _ => unit
  end.

Definition Answer (c : Call) : Type :=
  match c with
  | earlier c' => Web.Answer c'
  | lookupPlain _ => Locator
  | lookupHovering _ _ => Locator
  | perform _ g => Done g
  | expectPage _ _ _ => unit
  | removeItem _ _ => unit
  | useAPIAs => unit
  | sendRequest _ _ _ _ => Response
  end.

Inductive Prog (A : Type) : Type :=
| Ret (a : A)
| Throw (e : Error)
| Await (c : Call) (k : Answer c -> Prog A).
Arguments Ret {A} a.
Arguments Throw {A} e.
Arguments Await {A} c k.

Fixpoint bind {A B : Type} (f : A -> Prog B) (p : Prog A) : Prog B :=
  match p with
  | Ret a => f a
  | Throw e => Throw e
  | Await c k => Await c (fun x => bind f (k x))
  end.

#[export] Instance Prog_ret : MRet Prog := @Ret.
#[export] Instance Prog_bind : MBind Prog := @bind.

Definition await (c : Call) : Prog (Answer c) := Await c Ret.

(** A method of the earlier kind, among the wider calls. *)
Fixpoint lift {A : Type} (p : Web.Prog A) : Prog A :=
  match p with
  | Web.Ret a => Ret a
  | Web.Throw e => Throw e
  | Web.Await c k => Await (earlier c) (fun x => lift (k x))
  end.

(** What answers the wider calls: Playwright as before, the lookup
    called with no options, the gestures, the assertions on the page and
    the API ability of the actor. *)
Record Driver (P : Type) : Type := mkDriver {
  playwright : Playwright P;
  plainLookup : Selector -> P -> P * Result Locator;
  hoverLookup : Selector -> HoverOptions -> P -> P * Result Locator;
  gesture : Locator -> forall g : Gesture, P -> P * Result (Done g);
  pageAssertion : bool -> PageMatcher -> option ScreenOptions -> P -> P * Result unit;
  apiOf : P -> P * Result unit;
  request : RequestMethod -> string -> gmap string string -> string -> P
            -> P * Result Response
}.
Arguments playwright {P} _.
Arguments plainLookup {P} _ _ _.
Arguments hoverLookup {P} _ _ _ _.
Arguments gesture {P} _ _ _ _.
Arguments pageAssertion {P} _ _ _ _ _.
Arguments apiOf {P} _ _.
Arguments request {P} _ _ _ _ _ _.

Definition onPage {P A : Type} (b : Browser P) (r : P * Result A)
  : Browser P * Result A :=
  (setPage (fst r) b, snd r).

Definition answer {P : Type} (d : Driver P) (c : Call) (b : Browser P)
  : Browser P * Result (Answer c) :=
  match c as c0 return Browser P * Result (Answer c0) with
  | earlier c' => Web.answer (playwright d) c' b
  | lookupPlain selector => onPage b (plainLookup d selector (page b))
  | lookupHovering selector options => onPage b (hoverLookup d selector options (page b))
  | perform locator g => onPage b (gesture d locator g (page b))
  | expectPage negated m options => onPage b (pageAssertion d negated m options (page b))
  | removeItem area k => (setItems area (delete k (items area b)) b, Ok tt)
  | useAPIAs => onPage b (apiOf d (page b))
  | sendRequest method url headers format =>
      onPage b (request d method url headers format (page b))
  end.

Record Outcome (P A : Type) : Type := mkOutcome {
  final : Browser P;
  calls : list Call;
  result : Result A
}.
Arguments mkOutcome {P A} _ _ _.
Arguments final {P A} _.
Arguments calls {P A} _.
Arguments result {P A} _.

Fixpoint run {P A : Type} (d : Driver P) (p : Prog A) (b : Browser P)
  : Outcome P A :=
  match p with
  | Ret a => mkOutcome b [] (Ok a)
  | Throw e => mkOutcome b [] (Err e)
  | Await c k =>
      match answer d c b with
      | (b', Ok x) =>
          let o := run d (k x) b' in
          mkOutcome (final o) (c :: calls o) (result o)
      | (b', Err e) => mkOutcome b' [c] (Err e)
      end
  end.

(** [recursiveLocatorLookup({ page, selector, options })], where
    [options] may be undefined. *)
Definition lookupWith (selector : Selector) (options : option SelectorOptions)
  : Prog Locator :=
  match options with
  | Some o => await (earlier (recursiveLocatorLookup selector o))
  | None => await (lookupPlain selector)
  end.

(** The call that lookup is. *)
Definition lookupCall (selector : Selector) (options : option SelectorOptions) : Call :=
  match options with
  | Some given => earlier (recursiveLocatorLookup selector given)
  | None => lookupPlain selector
  end.

(** [(await recursiveLocatorLookup({ page, selector, options })).g(...)],
    the body of the methods that act on one element. *)
Definition onLocator (selector : Selector) (options : option SelectorOptions)
    (g : Gesture) : Prog (Done g) :=
  locator ← lookupWith selector options;
  await (perform locator g).

(** A driver on the page where nothing changes: every gesture is done
    and selects nothing, every assertion on the page holds, the actor
    has the API ability and every request is answered. *)
Definition stillDriver : Driver unit :=
  mkDriver unit stillPage
    (fun _ p => (p, Ok (LocatorRef 0)))
    (fun _ _ p => (p, Ok (LocatorRef 0)))
    (fun _ g p =>
       (p, Ok (match g as g0 return Done g0 with
               | selectOption _ => []
               | _ => tt
               end)))
    (fun _ _ _ p => (p, Ok tt))
    (fun p => (p, Ok tt))
    (fun _ _ _ _ p => (p, Ok (ResponseRef 0))).

End Actions.

(** ** src/web/abilities/BrowseTheWeb.ts, the methods besides the state
    checks and the storage getters and setters *)

Module Ability.
Import Web Actions.

(** The lookup is handed the options as they are, the gesture their
    modifiers. *)
Definition hover (selector : Selector) (options : option HoverOptions) : Prog unit :=
  match options with
  | Some given =>
      locator ← await (lookupHovering selector given);
      await (perform locator (Actions.hover (modifiers given)))
  | None => onLocator selector None (Actions.hover None)
  end.

Definition checkBox (selector : Selector) (options : option SelectorOptions) : Prog unit :=
  onLocator selector options Actions.check.

Definition waitForSelector (selector : Selector) (options : option SelectorOptions)
  : Prog Locator :=
  lookupWith selector options.

(** [{ source?, target? }], the options of [dragAndDrop]. *)
Record DragOptions : Type := mkDragOptions {
  source : option SelectorOptions;
  target : option SelectorOptions
}.

Definition dragAndDrop (sourceSelector targetSelector : Selector)
    (options : option DragOptions) : Prog unit :=
  targetLocator ← lookupWith targetSelector
                    (match options with Some o => target o | None => None end);
  sourceLocator ← lookupWith sourceSelector
                    (match options with Some o => source o | None => None end);
  await (perform sourceLocator (dragTo targetLocator 0 0)).

Definition fill (selector : Selector) (input : string)
    (options : option SelectorOptions) : Prog unit :=
  onLocator selector options (Actions.fill input).

Definition type (selector : Selector) (input : string)
    (options : option SelectorOptions) : Prog unit :=
  onLocator selector options (Actions.type input).

Definition click (selector : Selector) (options : option SelectorOptions) : Prog unit :=
  onLocator selector options Actions.click.

Definition dblclick (selector : Selector) (options : option SelectorOptions)
  : Prog unit :=
  onLocator selector options Actions.dblclick.

Definition selectOption (selector : Selector) (choice : OptionChoice)
    (selectorOptions : option SelectorOptions) : Prog (list string) :=
  onLocator selector selectorOptions (Actions.selectOption choice).

Definition checkPageUrl (mode : string) (expectedUrl : Pattern)
    (options : option ScreenOptions) : Prog bool :=
  _ ← (if String.eqb mode "toHaveUrl"
       then await (expectPage false (toHaveURL expectedUrl) options)
       else await (expectPage true (toHaveURL expectedUrl) options));
  mret true.

Definition checkPageTitle (mode : string) (expectedTitle : Pattern)
    (options : option ScreenOptions) : Prog bool :=
  _ ← (if String.eqb mode "toHaveTitle"
       then await (expectPage false (toHaveTitle expectedTitle) options)
       else await (expectPage true (toHaveTitle expectedTitle) options));
  mret true.

(** The function handed to [page.evaluate] by the two removers. *)
Definition removeStorageItem (area : StorageArea) (key : string) : Prog unit :=
  _ ← await (removeItem area key);
  mret tt.

Definition removeLocalStorageItem (key : string) : Prog unit :=
  removeStorageItem localStorage key.

Definition removeSessionStorageItem (key : string) : Prog unit :=
  removeStorageItem sessionStorage key.

End Ability.

(** ** The Delete action *)

Module Delete.
Import Web Actions.

(** The fields of the class; [headers] is declared by [ARequest], which
    is not among the sources, so the value it starts with is given to
    [from]. *)
Record Delete : Type := mkDelete {
  url : string;
  headers : gmap string string;
  responseBodyFormat : string
}.

Definition from (inherited : gmap string string) (url : string) : Delete :=
  mkDelete url inherited "json".

Definition withHeaders (headers : gmap string string) (this : Delete) : Delete :=
  mkDelete (url this) headers (responseBodyFormat this).

Definition withResponseBodyFormat (responseBodyFormat : string) (this : Delete) : Delete :=
  mkDelete (url this) (headers this) responseBodyFormat.

Definition performAs (this : Delete) : Prog Response :=
  _ ← await useAPIAs;
  await (sendRequest DELETE (url this) (headers this) (responseBodyFormat this)).

(** The two chained definitions with their arguments. *)
Inductive Chained : Type :=
| Headers (headers : gmap string string)
| ResponseBodyFormat (format : string).

Definition chain (c : Chained) (this : Delete) : Delete :=
  match c with
  | Headers h => withHeaders h this
  | ResponseBodyFormat f => withResponseBodyFormat f this
  end.

Definition chainAll (cs : list Chained) (this : Delete) : Delete :=
  fold_left (fun d c => chain c d) cs this.

(** The headers and the format named last in a list of chained
    definitions, if any. *)
Definition lastHeaders (cs : list Chained) : option (gmap string string) :=
  fold_left (fun found c => match c with Headers h => Some h | _ => found end) cs None.

Definition lastFormat (cs : list Chained) : option string :=
  fold_left (fun found c => match c with ResponseBodyFormat f => Some f | _ => found end)
            cs None.

End Delete.

(** ** Which way an assertion goes *)

Module Polarity.
Import Web Element.

(** An assertion that the element is not in the state asked about:
    hidden, disabled, or one of the others under [not]. *)
Definition denies (negated : bool) (m : Matcher) : bool :=
  match m with
  | toBeHidden | toBeDisabled => negb negated
  | _ => negated
  end.

Definition negative (f : Factory) : bool :=
  match f with
  | NotToBe | NotToHave => true
  | ToBe | ToHave => false
  end.

(** A call that, where it is an assertion, goes the way of the
    factory. *)
Definition agrees (f : Factory) (c : Call) : Prop :=
  match c with
  | expect _ negated m _ => denies negated m = negative f
  | _ => True
  end.

End Polarity.

(** * Properties *)

(** ** JSON texts parse back *)

Module JSONFacts.
Import JSON.

#[local] Arguments String.append !s1 s2 : simpl nomatch.

(** Induction over values that reaches into arrays and objects. *)
Lemma JsValue_nested_ind (Q : JsValue -> Prop) :
  Q JUndefined -> Q JNull -> (forall b, Q (JBool b)) -> (forall z, Q (JNumber z)) ->
  Q JNegZero -> (forall s, Q (JString s)) ->
  (forall vs, Forall Q vs -> Q (JArray vs)) ->
  (forall props, Forall (fun kv => Q (snd kv)) props -> Q (JObject props)) ->
  forall v, Q v.
Proof.
  intros Hu Hn Hb Hz Hm Hs Ha Ho.
  fix IH 1. intros [| |b|z| |s|vs|props];
    [exact Hu | exact Hn | apply Hb | apply Hz | exact Hm | apply Hs | |].
  - apply Ha. induction vs as [|v vs IHvs]; constructor; [apply IH | exact IHvs].
  - apply Ho. induction props as [|[k v] props IHps]; constructor;
      [apply IH | exact IHps].
Qed.

Lemma append_assoc (a b c : string) : ((a ++ b) ++ c = a ++ (b ++ c))%string.
Proof. induction a as [|x a IH]; [reflexivity | cbn; f_equal; exact IH]. Qed.

Lemma parseChars_escapeAll (s rest : string) :
  parseChars (escapeAll s ++ String doubleQuote rest) = Some (s, rest).
Proof.
  induction s as [|c s IH]; [reflexivity|].
  change (escapeAll (String c s)) with (escape c ++ escapeAll s)%string.
  rewrite append_assoc.
  generalize dependent (escapeAll s ++ String doubleQuote rest)%string.
  intros t IH.
  destruct c as [[] [] [] [] [] [] [] []]; simpl; rewrite IH; reflexivity.
Qed.

Lemma append_nil_r (a : string) : (a ++ EmptyString)%string = a.
Proof. induction a as [|x a IH]; [reflexivity | cbn; f_equal; exact IH]. Qed.

Lemma length_append (a b : string) :
  String.length (a ++ b) = String.length a + String.length b.
Proof. induction a as [|x a IH]; [reflexivity | cbn; f_equal; exact IH]. Qed.

(** *** Numbers *)

Lemma takeDigits_uint (d : Decimal.uint) (rest : string) :
  delimited rest = true ->
  takeDigits (NilEmpty.string_of_uint d ++ rest) = (NilEmpty.string_of_uint d, rest).
Proof.
  intros Hrest. induction d; cbn;
    try (rewrite IHd; reflexivity).
  destruct rest as [|c r]; [reflexivity|].
  unfold delimited in Hrest. cbv zeta in Hrest.
  apply andb_prop in Hrest as [Hd _]. apply negb_true_iff in Hd.
  cbn [NilEmpty.string_of_uint String.append takeDigits]. rewrite Hd. reflexivity.
Qed.

Lemma canonical_unorm (d : Decimal.uint) :
  match NilEmpty.string_of_uint (Decimal.unorm d) with
  | EmptyString => false
  | String c EmptyString => true
  | String c _ => negb (nat_of_ascii c =? 48)
  end = true.
Proof.
  induction d; try reflexivity;
    try (cbn; destruct (NilEmpty.string_of_uint d); reflexivity).
  rewrite DecimalFacts.unorm_D0. exact IHd.
Qed.

Lemma to_uint_unorm (n : N) : N.to_uint n = Decimal.unorm (N.to_uint n).
Proof.
  rewrite <- (DecimalN.Unsigned.to_of (N.to_uint n)).
  now rewrite DecimalN.Unsigned.of_to.
Qed.

Lemma parseDigits_N (n : N) (rest : string) :
  delimited rest = true ->
  parseDigits (NilEmpty.string_of_uint (N.to_uint n) ++ rest) = Some (n, rest).
Proof.
  intros Hrest. unfold parseDigits. rewrite (takeDigits_uint _ _ Hrest).
  assert (Hplain :
    match rest with
    | String c _ =>
        negb ((nat_of_ascii c =? 46) || (nat_of_ascii c =? 101) || (nat_of_ascii c =? 69))
    | EmptyString => true
    end = true).
  { destruct rest as [|c r]; [reflexivity|].
    unfold delimited in Hrest. cbv zeta in Hrest.
    apply andb_prop in Hrest as [_ H]. exact H. }
  cbv zeta. rewrite Hplain.
  pose proof (canonical_unorm (N.to_uint n)) as Hc.
  rewrite <- to_uint_unorm in Hc. rewrite Hc. cbn [andb].
  rewrite NilEmpty.usu, DecimalN.Unsigned.of_to. reflexivity.
Qed.

(** The first code unit of the digits of a number. *)
Lemma digits_head (n : N) :
  exists c r, NilEmpty.string_of_uint (N.to_uint n) = String c r /\ isDigit c = true.
Proof.
  pose proof (canonical_unorm (N.to_uint n)) as Hc.
  rewrite <- to_uint_unorm in Hc.
  destruct (N.to_uint n); cbn in *; try discriminate; eauto.
Qed.

(** *** One value at the front of a text *)

Section Readers.

Variable elements : string -> option (list JsValue * string).
Variable members : string -> option (list (string * JsValue) * string).

Lemma valueWith_null rest :
  valueWith elements members ("null" ++ rest) = Some (JNull, rest).
Proof. reflexivity. Qed.

Lemma valueWith_bool b rest :
  valueWith elements members (serialize (JBool b) ++ rest) = Some (JBool b, rest).
Proof. destruct b; reflexivity. Qed.

Lemma valueWith_string s rest :
  valueWith elements members (quote s ++ rest) = Some (JString s, rest).
Proof.
  unfold quote. cbn [String.append]. rewrite append_assoc. cbn [String.append].
  unfold valueWith. simpl. rewrite parseChars_escapeAll. reflexivity.
Qed.

Lemma valueWith_number z rest :
  delimited rest = true ->
  valueWith elements members (stringifyNumber z ++ rest) = Some (JNumber z, rest).
Proof.
  intros Hrest.
  assert (Hpos : forall n,
    valueWith elements members (NilEmpty.string_of_uint (N.to_uint n) ++ rest) =
    Some (JNumber (Z.of_N n), rest)).
  { intros n. pose proof (parseDigits_N n rest Hrest) as Hd.
    destruct (digits_head n) as (c & r & Hc & Hdigit).
    rewrite Hc in Hd |- *. cbn [String.append] in Hd |- *.
    destruct c as [[] [] [] [] [] [] [] []]; try discriminate Hdigit;
      unfold valueWith; simpl; simpl in Hd; rewrite Hd; reflexivity. }
  destruct z as [|p|p].
  - exact (Hpos 0%N).
  - exact (Hpos (Npos p)).
  - assert (Hneg : forall r,
      valueWith elements members (String "-" r) =
      match parseDigits r with
      | Some (m, rest') =>
          Some (if N.eqb m 0 then JNegZero else JNumber (Z.opp (Z.of_N m)), rest')
      | None => None
      end) by reflexivity.
    unfold stringifyNumber. cbn [String.append].
    rewrite Hneg, (parseDigits_N _ _ Hrest). reflexivity.
Qed.

Lemma opens_serialize v rest : opens (serialize v ++ rest) = true.
Proof.
  destruct v as [| |[]|z| |s|vs|props]; try reflexivity.
  assert (Hpos : forall n,
    opens (NilEmpty.string_of_uint (N.to_uint n) ++ rest) = true).
  { intros n. destruct (digits_head n) as (c & r & -> & Hdigit).
    destruct c as [[] [] [] [] [] [] [] []]; try discriminate Hdigit; reflexivity. }
  destruct z as [|p|p]; [exact (Hpos 0%N) | exact (Hpos (Npos p)) | reflexivity].
Qed.

Lemma valueWith_array r :
  opens r = true ->
  valueWith elements members (String "[" r) =
  match elements r with
  | Some (vs, rest) => Some (JArray vs, rest)
  | None => None
  end.
Proof.
  intros Hr.
  assert (Hstep : valueWith elements members (String "[" r) =
    match skipWhitespace r with
    | String c' r' =>
        if nat_of_ascii c' =? 93 then Some (JArray [], r')
        else match elements r with
             | Some (vs, rest) => Some (JArray vs, rest)
             | None => None
             end
    | EmptyString => None
    end) by reflexivity.
  rewrite Hstep. destruct r as [|c r']; [discriminate|].
  unfold opens in Hr. apply andb_prop in Hr as [Hr _]. apply andb_prop in Hr as [Hw Hc].
  apply negb_true_iff in Hw, Hc.
  cbn [skipWhitespace]. rewrite Hw, Hc. reflexivity.
Qed.

Lemma valueWith_object r :
  opens r = true ->
  valueWith elements members (String "{" r) =
  match members r with
  | Some (ms, rest) => Some (buildObject ms, rest)
  | None => None
  end.
Proof.
  intros Hr.
  assert (Hstep : valueWith elements members (String "{" r) =
    match skipWhitespace r with
    | String c' r' =>
        if nat_of_ascii c' =? 125 then Some (JObject [], r')
        else match members r with
             | Some (ms, rest) => Some (buildObject ms, rest)
             | None => None
             end
    | EmptyString => None
    end) by reflexivity.
  rewrite Hstep. destruct r as [|c r']; [discriminate|].
  unfold opens in Hr. apply andb_prop in Hr as [Hr Hc]. apply andb_prop in Hr as [Hw _].
  apply negb_true_iff in Hw, Hc.
  cbn [skipWhitespace]. rewrite Hw, Hc. reflexivity.
Qed.

Variable value : string -> option (JsValue * string).

Lemma elementsWith_more s v r :
  value s = Some (v, String "," r) ->
  elementsWith value elements s =
  match elements r with
  | Some (vs, rest) => Some (v :: vs, rest)
  | None => None
  end.
Proof. intros H. unfold elementsWith. rewrite H. reflexivity. Qed.

Lemma elementsWith_last s v r :
  value s = Some (v, String "]" r) ->
  elementsWith value elements s = Some ([v], r).
Proof. intros H. unfold elementsWith. rewrite H. reflexivity. Qed.

Lemma membersWith_more k s v r :
  value s = Some (v, String "," r) ->
  membersWith value members (quote k ++ String ":" s) =
  match members r with
  | Some (ms, rest) => Some ((k, v) :: ms, rest)
  | None => None
  end.
Proof.
  intros H. unfold quote. cbn [String.append]. rewrite append_assoc. cbn [String.append].
  unfold membersWith. simpl. rewrite parseChars_escapeAll. simpl.
  rewrite H. reflexivity.
Qed.

Lemma membersWith_last k s v r :
  value s = Some (v, String "}" r) ->
  membersWith value members (quote k ++ String ":" s) = Some ([(k, v)], r).
Proof.
  intros H. unfold quote. cbn [String.append]. rewrite append_assoc. cbn [String.append].
  unfold membersWith. simpl. rewrite parseChars_escapeAll. simpl.
  rewrite H. reflexivity.
Qed.

End Readers.

(** *** Arrays and objects *)

Lemma size_array vs : size (JArray vs) = S (sizes vs).
Proof. reflexivity. Qed.

Lemma size_object props : size (JObject props) = S (sizesOf props).
Proof.
  cbn [size]. f_equal.
  induction props as [|[k v] props IH];
    [reflexivity | cbn [sizesOf fold_right snd]; now rewrite IH].
Qed.

Lemma serializable_object props :
  serializable (JObject props) =
  distinct (List.map fst props) && forallb (fun kv => serializable (snd kv)) props.
Proof.
  cbn [serializable]. f_equal.
  induction props as [|[k v] props IH];
    [reflexivity | cbn [forallb snd]; now rewrite IH].
Qed.

Lemma member_serializable k x :
  serializable x = true ->
  member serialize (k, x) = Some (quote k ++ ":" ++ serialize x)%string.
Proof. destruct x; try discriminate; reflexivity. Qed.

Lemma keep_members props :
  forallb (fun kv => serializable (snd kv)) props = true ->
  keep (member serialize) props =
  List.map (fun kv => quote (fst kv) ++ ":" ++ serialize (snd kv))%string props.
Proof.
  induction props as [|[k x] props IH]; [reflexivity|].
  cbn [forallb snd]. intros [Hx Hps]%andb_prop.
  cbn [keep List.map fst snd]. rewrite (member_serializable k x Hx), (IH Hps).
  reflexivity.
Qed.

Lemma reads_elements vs :
  Forall reads vs -> forallb serializable vs = true -> vs <> [] ->
  forall fuel rest, sizes vs <= fuel ->
  parseElements fuel (joinWith "," (List.map serialize vs) ++ String "]" rest) =
  Some (vs, rest).
Proof.
  induction vs as [|v vs IH]; [congruence|].
  intros HF Hs _ fuel rest Hfuel.
  apply Forall_cons in HF as [Hv HF].
  cbn [forallb] in Hs. apply andb_prop in Hs as [Hsv Hs].
  cbn [sizes fold_right] in Hfuel. fold (sizes vs) in Hfuel.
  destruct fuel as [|f]; [lia|].
  change (parseElements (S f)) with (elementsWith (parseValue f) (parseElements f)).
  destruct vs as [|v2 vs'].
  - cbn [List.map joinWith].
    apply elementsWith_last. apply Hv; [exact Hsv | lia | reflexivity].
  - change (joinWith "," (List.map serialize (v :: v2 :: vs')))
      with (serialize v ++ "," ++ joinWith "," (List.map serialize (v2 :: vs')))%string.
    rewrite !append_assoc. cbn [String.append].
    rewrite (elementsWith_more _ _ _ v
               (joinWith "," (List.map serialize (v2 :: vs')) ++ String "]" rest)).
    + rewrite (IH HF Hs); [reflexivity | discriminate | lia].
    + apply Hv; [exact Hsv | lia | reflexivity].
Qed.

Lemma reads_members props :
  Forall (fun kv => reads (snd kv)) props ->
  forallb (fun kv => serializable (snd kv)) props = true -> props <> [] ->
  forall fuel rest, sizesOf props <= fuel ->
  parseMembers fuel
    (joinWith ","
       (List.map (fun kv => quote (fst kv) ++ ":" ++ serialize (snd kv))%string props)
     ++ String "}" rest) =
  Some (props, rest).
Proof.
  induction props as [|[k v] props IH]; [congruence|].
  intros HF Hs _ fuel rest Hfuel.
  apply Forall_cons in HF as [Hv HF]. cbn [snd] in Hv.
  cbn [forallb snd] in Hs. apply andb_prop in Hs as [Hsv Hs].
  cbn [sizesOf fold_right snd] in Hfuel. fold (sizesOf props) in Hfuel.
  destruct fuel as [|f]; [lia|].
  change (parseMembers (S f)) with (membersWith (parseValue f) (parseMembers f)).
  destruct props as [|p2 props'].
  - cbn [List.map joinWith fst snd]. rewrite !append_assoc. cbn [String.append].
    apply membersWith_last. apply Hv; [exact Hsv | lia | reflexivity].
  - set (write := fun kv : string * JsValue =>
                    (quote (fst kv) ++ ":" ++ serialize (snd kv))%string) in *.
    change (joinWith "," (List.map write ((k, v) :: p2 :: props')))
      with (write (k, v) ++ "," ++ joinWith "," (List.map write (p2 :: props')))%string.
    unfold write at 1. cbn [fst snd]. rewrite !append_assoc. cbn [String.append].
    rewrite (membersWith_more _ _ k _ v
               (joinWith "," (List.map write (p2 :: props')) ++ String "}" rest)).
    + rewrite (IH HF Hs); [reflexivity | discriminate | lia].
    + apply Hv; [exact Hsv | lia | reflexivity].
Qed.

Lemma existsb_eqb_false k ks : existsb (String.eqb k) ks = false -> ~ In k ks.
Proof.
  intros H Hin. apply not_true_iff_false in H. apply H.
  apply existsb_exists. exists k. split; [exact Hin | apply String.eqb_refl].
Qed.

Lemma setProperty_fresh k v props :
  ~ In k (List.map fst props) -> setProperty k v props = (props ++ [(k, v)])%list.
Proof.
  induction props as [|[k' v'] props IH]; intros Hk; [reflexivity|].
  cbn [setProperty]. destruct (String.eqb_spec k k') as [->|Hne].
  - exfalso. apply Hk. left. reflexivity.
  - cbn [app]. f_equal. apply IH. intros Hin. apply Hk. right. exact Hin.
Qed.

Lemma fold_setProperty ms acc :
  distinct (List.map fst ms) = true ->
  (forall k, In k (List.map fst ms) -> ~ In k (List.map fst acc)) ->
  fold_left (fun props m => setProperty (fst m) (snd m) props) ms acc = (acc ++ ms)%list.
Proof.
  revert acc. induction ms as [|[k v] ms IH]; intros acc Hd Hfresh.
  - cbn. now rewrite app_nil_r.
  - cbn [List.map fst distinct] in Hd. apply andb_prop in Hd as [Hk Hd].
    apply negb_true_iff in Hk. apply existsb_eqb_false in Hk.
    cbn [fold_left fst snd]. rewrite setProperty_fresh by (apply Hfresh; left; reflexivity).
    rewrite IH; [now rewrite <- app_assoc | exact Hd |].
    intros k' Hin. rewrite map_app, in_app_iff. intros [Hacc|[<-|[]]].
    + revert Hacc. apply Hfresh. right. exact Hin.
    + exact (Hk Hin).
Qed.

Lemma buildObject_distinct props :
  distinct (List.map fst props) = true -> buildObject props = JObject props.
Proof.
  intros Hd. unfold buildObject. f_equal.
  apply (fold_setProperty props [] Hd). intros k _ [].
Qed.

(** Every serializable value is read back from its text. *)
Lemma reads_all v : reads v.
Proof.
  induction v as [| |b|z| |s|vs IH|props IH] using JsValue_nested_ind;
    intros Hs fuel rest Hfuel Hrest;
    (destruct fuel as [|f]; [rewrite ?size_array, ?size_object in Hfuel; cbn in Hfuel; lia|]);
    change (parseValue (S f)) with (valueWith (parseElements f) (parseMembers f)).
  - discriminate.
  - apply valueWith_null.
  - apply valueWith_bool.
  - apply valueWith_number, Hrest.
  - discriminate.
  - apply valueWith_string.
  - rewrite size_array in Hfuel. cbn [serializable] in Hs.
    destruct vs as [|v vs]; [reflexivity|].
    cbn [serialize]. rewrite !append_assoc. cbn [String.append].
    rewrite valueWith_array.
    + rewrite (reads_elements _ IH Hs); [reflexivity | discriminate | lia].
    + destruct vs; cbn [List.map joinWith]; rewrite ?append_assoc;
        apply opens_serialize.
  - rewrite size_object in Hfuel. rewrite serializable_object in Hs.
    apply andb_prop in Hs as [Hd Hs].
    destruct props as [|[k v] props]; [reflexivity|].
    cbn [serialize]. rewrite (keep_members _ Hs).
    rewrite !append_assoc. cbn [String.append].
    rewrite valueWith_object.
    + rewrite (reads_members _ IH Hs); [|discriminate|lia].
      rewrite (buildObject_distinct _ Hd). reflexivity.
    + cbn [List.map]. destruct props; reflexivity.
Qed.

(** *** The fuel [parse] starts with is enough *)

Lemma sizes_fit vs :
  Forall fits vs -> forallb serializable vs = true ->
  sizes vs <= S (String.length (joinWith "," (List.map serialize vs))).
Proof.
  induction vs as [|v vs IH]; intros HF Hs; [cbn; lia|].
  apply Forall_cons in HF as [Hv HF].
  cbn [forallb] in Hs. apply andb_prop in Hs as [Hsv Hs].
  specialize (Hv Hsv). specialize (IH HF Hs).
  cbn [sizes fold_right]. fold (sizes vs).
  destruct vs as [|v2 vs'].
  - cbn [List.map joinWith sizes fold_right]. lia.
  - change (joinWith "," (List.map serialize (v :: v2 :: vs')))
      with (serialize v ++ String "," (joinWith "," (List.map serialize (v2 :: vs'))))%string.
    rewrite length_append. cbn [String.length]. lia.
Qed.

Lemma sizesOf_fit props :
  Forall (fun kv => fits (snd kv)) props ->
  forallb (fun kv => serializable (snd kv)) props = true ->
  sizesOf props <=
  S (String.length
       (joinWith ","
          (List.map (fun kv => quote (fst kv) ++ ":" ++ serialize (snd kv))%string props))).
Proof.
  induction props as [|[k v] props IH]; intros HF Hs; [cbn; lia|].
  apply Forall_cons in HF as [Hv HF]. cbn [snd] in Hv.
  cbn [forallb snd] in Hs. apply andb_prop in Hs as [Hsv Hs].
  specialize (Hv Hsv). specialize (IH HF Hs).
  cbn [sizesOf fold_right snd]. fold (sizesOf props).
  set (write := fun kv : string * JsValue =>
                  (quote (fst kv) ++ ":" ++ serialize (snd kv))%string) in *.
  assert (Hw : String.length (serialize v) <= String.length (write (k, v))).
  { unfold write. cbn [fst snd]. rewrite !length_append. lia. }
  destruct props as [|p2 props'].
  - cbn [List.map joinWith sizesOf fold_right]. lia.
  - change (joinWith "," (List.map write ((k, v) :: p2 :: props')))
      with (write (k, v) ++ String "," (joinWith "," (List.map write (p2 :: props'))))%string.
    rewrite length_append. cbn [String.length]. lia.
Qed.

Lemma fits_all v : fits v.
Proof.
  induction v as [| |b|z| |s|vs IH|props IH] using JsValue_nested_ind; intros Hs.
  - discriminate.
  - cbn. lia.
  - destruct b; cbn; lia.
  - cbn [size serialize].
    assert (Hpos : forall n, 1 <= String.length (NilEmpty.string_of_uint (N.to_uint n))).
    { intros n. destruct (digits_head n) as (c & r & -> & _). cbn. lia. }
    destruct z as [|p|p]; [exact (Hpos 0%N) | exact (Hpos (Npos p)) | cbn; lia].
  - discriminate.
  - cbn. lia.
  - rewrite size_array. cbn [serializable] in Hs.
    pose proof (sizes_fit vs IH Hs) as H.
    cbn [serialize]. rewrite !length_append. cbn [String.length] in *. lia.
  - rewrite size_object. rewrite serializable_object in Hs.
    apply andb_prop in Hs as [_ Hs].
    pose proof (sizesOf_fit props IH Hs) as H.
    cbn [serialize]. rewrite (keep_members _ Hs).
    rewrite !length_append. cbn [String.length] in *. lia.
Qed.

(** [JSON.parse(JSON.stringify(v))] gives [v] back for every
    serializable [v], and the text is never empty. *)
Theorem parse_stringify v :
  serializable v = true ->
  exists text,
    stringify v = Some text /\ text <> EmptyString /\ parse text = Some v.
Proof.
  intros Hs. exists (serialize v). split; [destruct v; try discriminate; reflexivity|].
  split.
  - pose proof (opens_serialize v EmptyString) as H. rewrite append_nil_r in H.
    intros Heq. rewrite Heq in H. discriminate.
  - unfold parse.
    pose proof (reads_all v Hs (S (String.length (serialize v))) EmptyString) as H.
    rewrite append_nil_r in H. rewrite H; [reflexivity | | reflexivity].
    pose proof (fits_all v Hs). lia.
Qed.

End JSONFacts.






(** ** The state checks of the ability *)

Module BrowseTheWebFacts.
Import Web BrowseTheWeb.

(** A run of the common body of the checks, by what the browser answers
    to the lookup and to the assertion. *)
Lemma run_expectAfterLookup {P : Type} (pw : Playwright P) (b : Browser P)
    selector options requiredState negated m :
  run pw (expectAfterLookup selector options requiredState negated m) b =
  let look := recursiveLocatorLookup selector (withState options requiredState) in
  match lookup pw selector (withState options requiredState) (page b) with
  | (p, Err e) => mkOutcome (setPage p b) [look] (Err e)
  | (p, Ok locator) =>
      let assert := expect locator negated m (timeoutOf options) in
      match assertion pw locator negated m (timeoutOf options) p with
      | (p', Err e) => mkOutcome (setPage p' (setPage p b)) [look; assert] (Err e)
      | (p', Ok _) => mkOutcome (setPage p' (setPage p b)) [look; assert] (Ok true)
      end
  end.
Proof.
  unfold expectAfterLookup. cbn.
  destruct (lookup pw selector (withState options requiredState) (page b)) as [p [locator|e]];
    cbn; [|reflexivity].
  destruct (assertion pw locator negated m (timeoutOf options) p) as [p' [[]|e]];
    reflexivity.
Qed.

(** Every check is the common body at some required state, polarity and
    matcher; the options of the lookup are the caller's with the state
    replaced. *)
Lemma check_shape (c : StateCheck) :
  exists selector options requiredState negated m,
    check c = expectAfterLookup selector options requiredState negated m.
Proof.
  destruct c as [s md o|s md o|s md o|s t md o|s v md o]; cbn;
    [unfold checkVisibilityState|unfold checkEnabledState|unfold checkEditableState
    |unfold checkSelectorText|unfold checkSelectorValue];
    match goal with |- context [if ?c then _ else _] => destruct c end; eauto 10.
Qed.

(** C4: checkEnabledState and checkEditableState look the locator up
    with required state "visible" before the interactivity predicate is
    applied, in the positive and in the negative mode alike: the lookup
    with [state: "visible"] is the first call; when it fails the check
    ends there with its error and no predicate is applied; when it
    answers a locator, the one further call is the predicate
    (toBeEnabled, toBeDisabled, toBeEditable or not.toBeEditable) on that
    locator. *)
Theorem interactivity_checks_require_visible {P : Type} (pw : Playwright P)
    (b : Browser P) selector mode options :
  let required := withState options "visible" in
  let look := recursiveLocatorLookup selector required in
  let visibleFirst (method : Prog bool) (negated : bool) (m : Matcher) :=
    match lookup pw selector required (page b) with
    | (_, Err e) =>
        calls (run pw method b) = [look] /\ result (run pw method b) = Err e
    | (_, Ok locator) =>
        calls (run pw method b) = [look; expect locator negated m (timeoutOf options)]
    end in
  state required = Some "visible" /\
  visibleFirst (checkEnabledState selector mode options) false
    (if String.eqb mode "enabled" then toBeEnabled else toBeDisabled) /\
  visibleFirst (checkEditableState selector mode options)
    (negb (String.eqb mode "editable")) toBeEditable.
Proof.
  cbv zeta. split; [destruct options; reflexivity|].
  unfold checkEnabledState, checkEditableState.
  split; destruct (String.eqb mode _); rewrite run_expectAfterLookup; cbv zeta;
    destruct (lookup pw selector (withState options "visible") (page b))
      as [p [locator|e]]; cbn; auto;
    destruct (assertion pw locator _ _ (timeoutOf options) p) as [p' [[]|e]];
    reflexivity.
Qed.

(** C6, as amended: each of the five state-checking operations looks the
    selector up once, with the options of the caller and the state the
    operation requires, and then waits on one assertion on the locator
    found, with the timeout of the caller's options.  When the assertion
    holds within that timeout the operation returns true; when the lookup
    or the assertion fails, the operation fails with that very error,
    whatever it is, and nothing is tried again; no operation returns
    false. *)
Theorem state_checks_true_or_throw {P : Type} (pw : Playwright P) (b : Browser P)
    selector mode text value options :
  let limit :=
    match options with
    | Some given => timeout given
    | None => None
    end in
  let required st :=
    match options with
    | Some given =>
        mkSelectorOptions (hasText given) (subSelector given) (timeout given) (Some st)
    | None => mkSelectorOptions None None None (Some st)
    end in
  let behaves (method : Prog bool) (st : string) (negated : bool) (m : Matcher) :=
    match lookup pw selector (required st) (page b) with
    | (_, Err e) =>
        calls (run pw method b) = [recursiveLocatorLookup selector (required st)] /\
        result (run pw method b) = Err e
    | (p, Ok locator) =>
        calls (run pw method b) =
          [recursiveLocatorLookup selector (required st);
           expect locator negated m limit] /\
        result (run pw method b) =
          match assertion pw locator negated m limit p with
          | (_, Ok _) => Ok true
          | (_, Err e) => Err e
          end
    end in
  behaves (checkVisibilityState selector mode options)
    (if String.eqb mode "visible" then "visible" else "hidden") false
    (if String.eqb mode "visible" then toBeVisible else toBeHidden) /\
  behaves (checkEnabledState selector mode options) "visible" false
    (if String.eqb mode "enabled" then toBeEnabled else toBeDisabled) /\
  behaves (checkEditableState selector mode options) "visible"
    (negb (String.eqb mode "editable")) toBeEditable /\
  behaves (checkSelectorText selector text mode options) "visible"
    (negb (String.eqb mode "has")) (toHaveText text) /\
  behaves (checkSelectorValue selector value mode options) "visible"
    (negb (String.eqb mode "has")) (toHaveValue value) /\
  forall c : StateCheck, result (run pw (check c) b) <> Ok false.
Proof.
  cbv zeta.
  assert (Hbody : forall st negated m,
    match lookup pw selector (withState options st) (page b) with
    | (_, Err e) =>
        calls (run pw (expectAfterLookup selector options st negated m) b) =
          [recursiveLocatorLookup selector (withState options st)] /\
        result (run pw (expectAfterLookup selector options st negated m) b) = Err e
    | (p, Ok locator) =>
        calls (run pw (expectAfterLookup selector options st negated m) b) =
          [recursiveLocatorLookup selector (withState options st);
           expect locator negated m (timeoutOf options)] /\
        result (run pw (expectAfterLookup selector options st negated m) b) =
          match assertion pw locator negated m (timeoutOf options) p with
          | (_, Ok _) => Ok true
          | (_, Err e) => Err e
          end
    end).
  { intros st negated m. rewrite run_expectAfterLookup. cbv zeta.
    destruct (lookup pw selector (withState options st) (page b)) as [p [locator|e]];
      [|split; reflexivity].
    destruct (assertion pw locator negated m (timeoutOf options) p) as [p' [[]|e]];
      split; reflexivity. }
  unfold checkVisibilityState, checkEnabledState, checkEditableState,
         checkSelectorText, checkSelectorValue.
  repeat split;
    try (match goal with
         | |- context [String.eqb mode ?s] => destruct (String.eqb mode s)
         end; apply Hbody).
  intros c. destruct (check_shape c) as (sel & opts & st & negated & m & ->).
  rewrite run_expectAfterLookup. cbv zeta.
  destruct (lookup pw sel (withState opts st) (page b)) as [p [locator|e]];
    [|discriminate].
  destruct (assertion pw locator negated m (timeoutOf opts) p) as [p' [[]|e]];
    discriminate.
Qed.

(** C6 as it was stated fails where the failure is no timeout: on a page
    where the locator stands for two elements the check fails with the
    error Playwright gives for that, which carries neither an elapsed
    time nor a limit. *)
Lemma check_surfaces_other_errors :
  result (run twofoldPage (checkVisibilityState (Query "h3") "visible" None) emptyBrowser)
    = Err strictModeViolation /\
  name strictModeViolation = "Error" /\
  forall limit, strictModeViolation <> TimeoutError limit.
Proof. repeat split. discriminate. Qed.

Lemma items_setItems {P : Type} area (m : gmap string string) (b : Browser P) :
  items area (setItems area m b) = m.
Proof. destruct area; reflexivity. Qed.

(** Setting an item and getting it, in one storage area: what comes back
    is what [parse] makes of the text that was stored. *)
Lemma getStorageItem_after_set {J : Builtin.JsonObject} {P : Type} (pw : Playwright P)
    (b : Browser P) area key value :
  result (run pw (_ ← setStorageItem area key value; getStorageItem area key) b) =
  match default "undefined" (Builtin.stringify value) with
  | EmptyString => Ok Builtin.undefined
  | String c r =>
      match Builtin.parse (String c r) with
      | Some v => Ok v
      | None => Err SyntaxError
      end
  end.
Proof.
  unfold setStorageItem, getStorageItem. cbn.
  rewrite items_setItems, lookup_insert_eq.
  destruct (default "undefined" (Builtin.stringify value)) as [|c r]; [reflexivity|].
  destruct (Builtin.parse (String c r)); reflexivity.
Qed.

Lemma getStorageItem_unset {J : Builtin.JsonObject} {P : Type} (pw : Playwright P)
    (b : Browser P) area key :
  items area b !! key = None ->
  result (run pw (getStorageItem area key) b) = Ok Builtin.undefined.
Proof. intros H. unfold getStorageItem. cbn. rewrite H. reflexivity. Qed.

(** C8, as amended: for every key and every value that JSON.stringify
    turns into a text that is not empty, setLocalStorageItem(key, value)
    followed by getLocalStorageItem(key) returns what JSON.parse makes of
    that text, which is the value itself for every value JSON.parse gives
    back from its text; getLocalStorageItem of a key with no stored item
    returns undefined; the same holds of setSessionStorageItem and
    getSessionStorageItem. *)
Theorem storage_round_trip {J : Builtin.JsonObject} {P : Type} (pw : Playwright P)
    (b : Browser P) key value text :
  Builtin.stringify value = Some text ->
  text <> EmptyString ->
  let viaLocal :=
    result (run pw (_ ← setLocalStorageItem key value; getLocalStorageItem key) b) in
  let viaSession :=
    result (run pw (_ ← setSessionStorageItem key value; getSessionStorageItem key) b) in
  let parsed :=
    match Builtin.parse text with
    | Some v => Ok v
    | None => Err SyntaxError
    end in
  viaLocal = parsed /\ viaSession = parsed /\
  (Builtin.parse text = Some value -> viaLocal = Ok value /\ viaSession = Ok value) /\
  (forall b' : Browser P, localItems b' !! key = None ->
     result (run pw (getLocalStorageItem key) b') = Ok Builtin.undefined) /\
  (forall b' : Browser P, sessionItems b' !! key = None ->
     result (run pw (getSessionStorageItem key) b') = Ok Builtin.undefined).
Proof.
  intros Hstr Hne. cbv zeta.
  assert (H : forall area,
    result (run pw (_ ← setStorageItem area key value; getStorageItem area key) b) =
    match Builtin.parse text with
    | Some v => Ok v
    | None => Err SyntaxError
    end).
  { intros area. rewrite getStorageItem_after_set, Hstr. cbn [default from_option].
    destruct text as [|c r]; [congruence | reflexivity]. }
  pose proof (H localStorage) as Hl. pose proof (H sessionStorage) as Hs.
  unfold setLocalStorageItem, getLocalStorageItem,
         setSessionStorageItem, getSessionStorageItem.
  rewrite Hl, Hs.
  split; [reflexivity|]. split; [reflexivity|].
  split; [intros ->; split; reflexivity|].
  split; intros b'.
  - apply (getStorageItem_unset pw b' localStorage).
  - apply (getStorageItem_unset pw b' sessionStorage).
Qed.

Lemma storage_round_trip_witness :
  result (run stillPage
            (_ ← setLocalStorageItem (J := JSON.fragment) "localKey"
                   (JSON.JString "localValue");
             getLocalStorageItem (J := JSON.fragment) "localKey")
            emptyBrowser)
  = Ok (JSON.JString "localValue").
Proof.
  refine (eq_trans
            (proj1 (storage_round_trip (J := JSON.fragment) stillPage emptyBrowser
                      "localKey" (JSON.JString "localValue")
                      (JSON.serialize (JSON.JString "localValue")) eq_refl _)) _).
  - intros H. vm_compute in H. discriminate H.
  - vm_compute. reflexivity.
Defined.

(** C8 as it was stated fails at negative zero, a number JSON can write:
    JSON.stringify writes it as the text of zero, so what comes back is
    zero. *)
Lemma negative_zero_comes_back_zero :
  result (run stillPage
            (_ ← setLocalStorageItem (J := JSON.fragment) "k" JSON.JNegZero;
             getLocalStorageItem (J := JSON.fragment) "k")
            emptyBrowser)
  = Ok (JSON.JNumber 0) /\
  JSON.parse "-0" = Some JSON.JNegZero /\
  @Ok JSON.JsValue (JSON.JNumber 0) <> Ok JSON.JNegZero.
Proof. repeat split. discriminate. Qed.

End BrowseTheWebFacts.

(** ** The Element question *)

Module ElementFacts.
Import Web BrowseTheWeb Element.

Lemma constructible_new checkMode : constructible (new checkMode).
Proof. split; [cbn; auto | discriminate]. Qed.

Lemma constructible_apply op e : constructible e -> constructible (apply op e).
Proof.
  intros [Hm Hp].
  destruct op; (split; [cbn; auto 6 | cbn; try discriminate; eauto]).
Qed.

Lemma constructible_applyAll ops e : constructible e -> constructible (applyAll ops e).
Proof.
  revert e. induction ops as [|op ops IH]; intros e He; [exact He|].
  apply (IH (apply op e)), constructible_apply, He.
Qed.

Lemma constructible_dispatches e :
  constructible e ->
  exists c : StateCheck, answeredBy e = asActor (check c).
Proof.
  intros [Hm Hp]. unfold answeredBy.
  destruct (String.eqb_spec (mode e) "visible");
    [eexists (VisibilityState _ _ _); reflexivity|].
  destruct (String.eqb_spec (mode e) "enabled");
    [eexists (EnabledState _ _ _); reflexivity|].
  destruct (String.eqb_spec (mode e) "editable");
    [eexists (EditableState _ _ _); reflexivity|].
  destruct (String.eqb_spec (mode e) "text");
    [eexists (SelectorText _ _ _ _); reflexivity|].
  destruct (String.eqb_spec (mode e) "value") as [Hv|Hv].
  - destruct (Hp Hv) as [p ->]. eexists (SelectorValue _ _ _ _); reflexivity.
  - cbn in Hm. intuition congruence.
Qed.

(** C5, as amended: in mode "value" every array payload, whatever the
    selector stands for, makes the promise answeredBy returns reject
    with a plain Error ("Element.value: incompatible payload! Arrays can
    not be checked."), before the ability is fetched or anything is
    looked up.  A payload that is no array is compared against the value
    of the target: after the ability is fetched, checkSelectorValue
    looks the selector up with state "visible" and asserts toHaveValue of
    the payload (its denial unless the checkMode is "toBe") on the
    locator found, with the timeout of the options; the answer is true
    when the assertion holds and its error when it does not. *)
Theorem value_mode_rejects_arrays (e : Element) :
  mode e = "value" ->
  (forall ps, payload e = Multiple ps ->
     call e =
       Promised
         (Throw (JsError "Element.value: incompatible payload! Arrays can not be checked.")) /\
     forall (P : Type) (pw : Playwright P) (b : Browser P),
       run pw (answeredBy e) b =
       mkOutcome b []
         (Err (JsError "Element.value: incompatible payload! Arrays can not be checked."))) /\
  (forall p, payload e = Single p ->
     forall (P : Type) (pw : Playwright P) (b : Browser P),
       let o := run pw (answeredBy e) b in
       let negated := negb (String.eqb (checkMode e) "toBe") in
       let limit :=
         match options e with
         | Some given => timeout given
         | None => None
         end in
       let required :=
         match options e with
         | Some given =>
             mkSelectorOptions (hasText given) (subSelector given) (timeout given)
                               (Some "visible")
         | None => mkSelectorOptions None None None (Some "visible")
         end in
       match abilityOf pw (page b) with
       | (_, Err err) => calls o = [withAbilityTo] /\ result o = Err err
       | (p0, Ok _) =>
           match lookup pw (selector e) required p0 with
           | (_, Err err) =>
               calls o = [withAbilityTo; recursiveLocatorLookup (selector e) required] /\
               result o = Err err
           | (p1, Ok locator) =>
               calls o = [withAbilityTo;
                          recursiveLocatorLookup (selector e) required;
                          expect locator negated (toHaveValue p) limit] /\
               result o =
                 match assertion pw locator negated (toHaveValue p) limit p1 with
                 | (_, Ok _) => Ok true
                 | (_, Err err) => Err err
                 end
           end
       end).
Proof.
  intros Hm. unfold call, answeredBy. rewrite Hm. cbn [String.eqb Ascii.eqb Bool.eqb].
  split.
  - intros ps ->. split; [reflexivity|]. intros. reflexivity.
  - intros p -> P pw b. cbv zeta.
    unfold asActor, polarity, checkSelectorValue.
    destruct (String.eqb (checkMode e) "toBe"); cbn;
      destruct (abilityOf pw (page b)) as [p0 [[]|err]]; cbn; auto;
      fold (withState (options e) "visible"); fold (timeoutOf (options e));
      destruct (lookup pw (selector e) (withState (options e) "visible") p0)
        as [p1 [locator|err]]; cbn; auto;
      destruct (assertion pw locator _ (toHaveValue p) (timeoutOf (options e)) p1)
        as [p2 [[]|err]]; cbn; auto.
Qed.

Lemma value_mode_rejects_arrays_witness :
  call (mkElement "value" (Query "input") (Multiple [Text "a"; Text "b"]) None "toBe") =
  Promised
    (Throw (JsError "Element.value: incompatible payload! Arrays can not be checked.")).
Proof.
  exact (proj1 (proj1 (value_mode_rejects_arrays
                         (mkElement "value" (Query "input")
                                    (Multiple [Text "a"; Text "b"]) None "toBe")
                         eq_refl) [Text "a"; Text "b"] eq_refl)).
Defined.

(** C5 as it was stated fails at an array of two expected values: the
    method is async, so nothing is thrown at the call, and what the
    promise rejects with is named Error, not InvalidSpec. *)
Lemma array_payload_is_no_synchronous_InvalidSpec :
  let e := mkElement "value" (Query "select") (Multiple [Text "a"; Text "b"]) None "toBe" in
  (forall err, call e <> Threw err) /\
  result (run stillPage (answeredBy e) emptyBrowser)
    = Err (JsError "Element.value: incompatible payload! Arrays can not be checked.") /\
  name (JsError "Element.value: incompatible payload! Arrays can not be checked.")
    <> "InvalidSpec".
Proof. cbv zeta. repeat split; discriminate. Qed.

(** C9: an Element built by a factory (toBe, notToBe, toHave, notToHave)
    followed by mode operators has one of the five handled modes, so
    answeredBy does not reach its final throw: it fetches the ability and
    runs one of the check methods of BrowseTheWeb. *)
Theorem public_elements_dispatch (f : Factory) (ops : list ModeOperator) :
  let e := applyAll ops (make f) in
  In (mode e) handledModes /\
  answeredBy e <> Throw (JsError "Unknown mode: Element.answeredBy") /\
  exists c : StateCheck, answeredBy e = asActor (check c).
Proof.
  cbv zeta.
  assert (H : constructible (applyAll ops (make f))).
  { apply constructible_applyAll. destruct f; apply constructible_new. }
  split; [exact (proj1 H)|].
  destruct (constructible_dispatches _ H) as [c Hc].
  split; [rewrite Hc; discriminate | eauto].
Qed.

(** C10: toHave builds what toBe builds and notToHave what notToBe
    builds, so after the same mode operators answeredBy is the same
    method and runs alike in every browser. *)
Theorem toHave_is_toBe (ops : list ModeOperator) :
  checkMode toHave = "toBe" /\ checkMode toBe = "toBe" /\
  checkMode notToHave = "notToBe" /\ checkMode notToBe = "notToBe" /\
  answeredBy (applyAll ops toHave) = answeredBy (applyAll ops toBe) /\
  answeredBy (applyAll ops notToHave) = answeredBy (applyAll ops notToBe) /\
  forall (P : Type) (pw : Playwright P) (b : Browser P),
    run pw (answeredBy (applyAll ops toHave)) b =
    run pw (answeredBy (applyAll ops toBe)) b /\
    run pw (answeredBy (applyAll ops notToHave)) b =
    run pw (answeredBy (applyAll ops notToBe)) b.
Proof. repeat split; reflexivity. Qed.

End ElementFacts.

(** ** The resolution engine *)

Module EngineFacts.
Import Engine.

Lemma fold_orElse {A : Type} (own : list (option A)) (outer : option A) :
  fold_left (fun o inner => orElse inner o) own outer = orElse (innermostSet own) outer.
Proof.
  unfold innermostSet. revert outer.
  induction own as [|o own IH]; intros outer; [reflexivity|].
  cbn [fold_left]. rewrite (IH (orElse o outer)), (IH (orElse o None)).
  destruct (fold_left _ own None); [reflexivity|].
  destruct o; reflexivity.
Qed.

Lemma innermostSet_cons {A : Type} (o : option A) (own : list (option A)) :
  innermostSet (o :: own) = orElse (innermostSet own) o.
Proof.
  unfold innermostSet at 1. cbn [fold_left]. rewrite fold_orElse.
  destruct (innermostSet own), o; reflexivity.
Qed.

Lemma orElse_assoc {A : Type} (a b c : option A) :
  orElse (orElse a b) c = orElse a (orElse b c).
Proof. destruct a; reflexivity. Qed.

(** Containment is containment: some text before and some text after. *)
Lemma prefix_spec (p s : string) :
  String.prefix p s = true <-> exists rest, s = (p ++ rest)%string.
Proof.
  revert s. induction p as [|a p IH]; intros s.
  - split; [exists s; reflexivity | destruct s; reflexivity].
  - destruct s as [|b s]; cbn [String.prefix].
    + split; [discriminate | intros [rest H]; discriminate].
    + destruct (Ascii.ascii_dec a b) as [->|Hne].
      * rewrite IH. split; intros [rest H]; exists rest.
        -- cbn. now rewrite H.
        -- cbn in H. now injection H.
      * split; [discriminate|]. intros [rest H]. cbn in H. injection H as H _.
        congruence.
Qed.

Lemma contains_spec (needle haystack : string) :
  contains needle haystack = true <->
  exists before after, haystack = (before ++ needle ++ after)%string.
Proof.
  induction haystack as [|c h IH]; cbn [contains].
  - rewrite orb_false_r, prefix_spec. split.
    + intros [rest H]. exists EmptyString, rest. exact H.
    + intros (before & after & H). destruct before as [|x before]; [|discriminate].
      exists after. exact H.
  - rewrite orb_true_iff, prefix_spec, IH. split.
    + intros [[rest H]|(before & after & H)].
      * exists EmptyString, rest. exact H.
      * exists (String c before), after. cbn. now rewrite H.
    + intros (before & after & H). destruct before as [|x before].
      * left. exists after. exact H.
      * right. exists before, after. cbn in H. now injection H.
Qed.

Section Resolution.

Context {SP : ScopeProvider} {WP : WaitPolicy SP}.

Lemma SelectorSpec_nested_ind (Q : SelectorSpec SP -> Prop) :
  (forall q, Q (Literal q)) ->
  (forall base f st t m, Q (Chain base f None st t m)) ->
  (forall base f sub st t m, Q sub -> Q (Chain base f (Some sub) st t m)) ->
  forall spec, Q spec.
Proof.
  intros HL HN HS. fix IH 1. intros [q|base f [sub|] st t m].
  - apply HL.
  - apply HS, IH.
  - apply HN.
Qed.

Lemma narrow_filter (region : list Node) q f :
  narrow region q f = List.filter (accepts f) (matched q region).
Proof.
  unfold narrow, matched. induction region as [|n region IH]; [reflexivity|].
  cbn [flat_map]. rewrite List.filter_app, IH. reflexivity.
Qed.

Lemma narrowAll_nil ls : narrowAll [] ls = [].
Proof. induction ls as [|l ls IH]; [reflexivity | exact IH]. Qed.

Lemma nodes_scopeAll (s : Scope SP) ls : nodes (scopeAll s ls) = narrowAll (nodes s) ls.
Proof.
  revert s. induction ls as [|[q f] ls IH]; intros s; [reflexivity|].
  cbn [scopeAll narrowAll fold_left fst snd]. apply (IH (Resolved s q f)).
Qed.

Lemma length_levels (spec : SelectorSpec SP) inherited :
  length (levels spec inherited) = depth spec.
Proof.
  revert inherited.
  induction spec using SelectorSpec_nested_ind; intros inherited;
    cbn [levels depth length]; [reflexivity | reflexivity | now rewrite IHspec].
Qed.

(** The descent succeeds on a well-formed spec, and the handle it ends
    with is the scope narrowed level after level. *)
Lemma resolveWith_levels (spec : SelectorSpec SP) :
  forall scope options,
    wellFormed spec = true ->
    exists h req,
      resolveWith scope spec options = Ok (h, req) /\
      asScope h = scopeAll scope (levels spec (optHasText options)).
Proof.
  induction spec as [q|base f st t m|base f sub st t m IH] using SelectorSpec_nested_ind;
    intros scope options Hwf; cbn [wellFormed] in Hwf.
  - cbn [resolveWith]. eauto.
  - rewrite andb_true_r in Hwf. cbn [resolveWith]. rewrite Hwf. eauto.
  - apply andb_prop in Hwf as [Hbase Hsub].
    cbn [resolveWith]. rewrite Hbase. cbv zeta.
    destruct (IH (asScope (resolveLiteral scope base
                             (atLevel f (mergeDown st t m options))))
                 (mergeDown st t m options) Hsub) as (h & req & Hres & Hscope).
    exists h, req. split; [exact Hres|]. rewrite Hscope. reflexivity.
Qed.

(** The descent fails on nothing but a chain that is not well-formed,
    and then with InvalidSpec. *)
Lemma resolveWith_error (spec : SelectorSpec SP) :
  forall scope options e,
    resolveWith scope spec options = Err e -> e = InvalidSpec /\ wellFormed spec = false.
Proof.
  induction spec as [q|base f st t m|base f sub st t m IH] using SelectorSpec_nested_ind;
    intros scope options e; cbn [resolveWith wellFormed].
  - discriminate.
  - destruct (usable base); [discriminate|]. intros [= <-]. auto.
  - destruct (usable base); [|intros [= <-]; auto].
    cbv zeta. intros H. apply IH in H. exact H.
Qed.

Lemma resolveWith_inForce (spec : SelectorSpec SP) :
  forall scope options h req,
    resolveWith scope spec options = Ok (h, req) ->
    optState req = orElse (innermostSet (ownStates spec)) (optState options) /\
    optTimeout req = orElse (innermostSet (ownTimeouts spec)) (optTimeout options) /\
    optModifiers req = orElse (innermostSet (ownModifiers spec)) (optModifiers options).
Proof.
  induction spec as [q|base f st t m|base f sub st t m IH] using SelectorSpec_nested_ind;
    intros scope options h req; cbn [resolveWith].
  - intros [= _ <-]. auto.
  - destruct (usable base); [|discriminate]. intros [= _ <-].
    cbn [ownStates ownTimeouts ownModifiers atLevel mergeDown
         optState optTimeout optModifiers].
    rewrite !innermostSet_cons. auto.
  - destruct (usable base); [|discriminate]. cbv zeta. intros H.
    apply IH in H as (Hs & Ht & Hm). rewrite Hs, Ht, Hm.
    cbn [ownStates ownTimeouts ownModifiers mergeDown optState optTimeout optModifiers].
    rewrite !innermostSet_cons, !orElse_assoc. auto.
Qed.

(** C1: a spec of depth N resolved against a root scope gives a handle
    whose effective scope is the root scope narrowed N times, once per
    level by that level's base and hasText, outermost level first; the
    handle returned is the one of the deepest level. *)
Theorem chain_narrows_level_by_level (scope : Scope SP) (spec : SelectorSpec SP)
    (options : Options SP) :
  wellFormed spec = true ->
  exists h,
    resolve scope spec options = Ok h /\
    length (levels spec (optHasText options)) = depth spec /\
    asScope h = scopeAll scope (levels spec (optHasText options)) /\
    effectiveScope h = narrowAll (nodes scope) (levels spec (optHasText options)).
Proof.
  intros Hwf.
  destruct (resolveWith_levels spec scope options Hwf) as (h & req & Hres & Hscope).
  exists h. unfold resolve. rewrite Hres. split; [reflexivity|].
  split; [apply length_levels|]. split; [exact Hscope|].
  unfold effectiveScope. rewrite Hscope. apply nodes_scopeAll.
Qed.

(** C2: a hasText filter is applied at the level that declares it and
    before the descent into the subSelector.  Where the base of the level
    matches k nodes of the scope and j of them satisfy the text
    predicate, the handle of the level stands for exactly those j nodes,
    and a subSelector is resolved with that handle as its scope.  A
    string filter is satisfied by the nodes whose text contains it. *)
Theorem text_filter_selective (scope : Scope SP) base (f : TextFilter SP)
    (sub : option (SelectorSpec SP)) st t m (options : Options SP) :
  wellFormed (Chain base (Some f) sub st t m) = true ->
  let H := resolveLiteral scope base (atLevel (Some f) (mergeDown st t m options)) in
  effectiveScope H = List.filter (accepts (Some f)) (matched base (nodes scope)) /\
  length (effectiveScope H) <= length (matched base (nodes scope)) /\
  (forall n, In n (effectiveScope H) <->
             In n (matched base (nodes scope)) /\ accepts (Some f) n = true) /\
  (forall s n, accepts (Some (Substring s)) n = true <->
               exists before after, textOf n = (before ++ s ++ after)%string) /\
  (forall r n, accepts (Some (Matching r)) n = test r (textOf n)) /\
  resolve scope (Chain base (Some f) sub st t m) options =
    match sub with
    | Some inner => resolve (asScope H) inner (mergeDown st t m options)
    | None => Ok H
    end.
Proof.
  intros Hwf. cbn [wellFormed] in Hwf. apply andb_prop in Hwf as [Hbase _].
  cbv zeta.
  assert (He : effectiveScope (resolveLiteral scope base
                                 (atLevel (Some f) (mergeDown st t m options))) =
               List.filter (accepts (Some f)) (matched base (nodes scope))).
  { exact (narrow_filter (nodes scope) base (Some f)). }
  split; [exact He|].
  split; [rewrite He; apply List.filter_length_le|].
  split; [intros n; rewrite He; apply List.filter_In|].
  split; [intros s n; apply contains_spec|].
  split; [reflexivity|].
  unfold resolve. cbn [resolveWith]. rewrite Hbase.
  destruct sub; reflexivity.
Qed.

(** C3: in the resolution of a chain with a subSelector, the state, the
    timeout and the modifiers in force are, for each of the three, the
    value set at the deepest level below that sets one, and only where no
    level below sets one the value of the outer chain (or, where it sets
    none either, the value it was given): an inner level takes precedence
    over an outer one. *)
Theorem inner_settings_take_precedence (scope : Scope SP) base f
    (sub : SelectorSpec SP) st t m (options : Options SP) h req :
  resolveWith scope (Chain base f (Some sub) st t m) options = Ok (h, req) ->
  optState req =
    orElse (innermostSet (ownStates sub)) (orElse st (optState options)) /\
  optTimeout req =
    orElse (innermostSet (ownTimeouts sub)) (orElse t (optTimeout options)) /\
  optModifiers req =
    orElse (innermostSet (ownModifiers sub)) (orElse m (optModifiers options)).
Proof.
  intros H. apply resolveWith_inForce in H as (Hs & Ht & Hm).
  rewrite Hs, Ht, Hm.
  cbn [ownStates ownTimeouts ownModifiers].
  rewrite !innermostSet_cons, !orElse_assoc. auto.
Qed.

(** C7: resolve raises no ResolutionError.  A well-formed spec whose base
    query matches no node of the scope, with no state to wait for,
    resolves to a handle without error, also when the wait coupling is
    counted in; the handle stands for no node, and the ResolutionError
    comes when the handle is queried. *)
Theorem zero_match_surfaces_at_query_time (scope : Scope SP) (spec : SelectorSpec SP)
    (options : Options SP) :
  wellFormed spec = true ->
  matched (baseOf spec) (nodes scope) = [] ->
  orElse (innermostSet (ownStates spec)) (optState options) = None ->
  resolve scope spec options <> Err ResolutionError /\
  exists h,
    resolve scope spec options = Ok h /\
    resolveAndWait scope spec options = Ok h /\
    effectiveScope h = [] /\
    queryHandle h = Err ResolutionError.
Proof.
  intros Hwf Hzero Hstate.
  destruct (resolveWith_levels spec scope options Hwf) as (h & req & Hres & Hscope).
  pose proof (resolveWith_inForce spec scope options h req Hres) as (Hs & _ & _).
  rewrite Hstate in Hs.
  unfold resolve, resolveAndWait. rewrite Hres, Hs.
  split; [discriminate|]. exists h. do 2 (split; [reflexivity|]).
  assert (Hnone : effectiveScope h = []).
  { unfold effectiveScope. rewrite Hscope, nodes_scopeAll.
    destruct spec as [q|base f sub st t m];
      cbn [levels narrowAll fold_left fst snd baseOf] in *;
      rewrite narrow_filter, Hzero; [reflexivity | apply narrowAll_nil]. }
  split; [exact Hnone|]. unfold queryHandle. rewrite Hnone. reflexivity.
Qed.

End Resolution.

(** The theorems at the scenarios of the design document. *)

Lemma chain_narrows_level_by_level_witness :
  exists h,
    resolve page scenarioA noOptions = Ok h /\
    effectiveScope h = [spanFoo].
Proof.
  destruct (chain_narrows_level_by_level page scenarioA noOptions eq_refl)
    as (h & Hr & _ & _ & He).
  exists h. split; [exact Hr | rewrite He; reflexivity].
Defined.

Lemma text_filter_selective_witness :
  effectiveScope (resolveLiteral withinA "span"
                    (atLevel (Some (Substring "Foo")) (mergeDown None None None noOptions)))
    = [spanFoo] /\
  matched "span" (nodes withinA) = [spanFoo; spanBar].
Proof.
  destruct (text_filter_selective withinA "span" (Substring "Foo") None None None None
              noOptions eq_refl)
    as (He & _).
  split; [rewrite He; reflexivity | reflexivity].
Defined.

Lemma inner_settings_take_precedence_witness :
  resolveWith page scenarioA noOptions = Ok (handleA, settingsA) /\
  optState settingsA = Some visible /\ optTimeout settingsA = Some 500.
Proof.
  split; [reflexivity|].
  destruct (inner_settings_take_precedence page "#a" None
              (Chain "span" (Some (Substring "Foo")) None (Some visible) None None)
              (Some hidden) (Some 500) None noOptions handleA settingsA eq_refl)
    as (Hs & Ht & _).
  split; [rewrite Hs | rewrite Ht]; reflexivity.
Defined.

Lemma zero_match_surfaces_at_query_time_witness :
  exists h,
    resolveAndWait page missing noOptions = Ok h /\
    queryHandle h = Err ResolutionError.
Proof.
  destruct (zero_match_surfaces_at_query_time page missing noOptions
              eq_refl eq_refl eq_refl) as (_ & h & _ & Hr & _ & Hq).
  exists h. split; [exact Hr | exact Hq].
Defined.

(** Scenario B: the same query with [state=visible, timeout=500] fails
    in the wait, with the limit it was given. *)
Example scenarioB_times_out :
  resolveAndWait page scenarioB noOptions = Err (LookupTimeout 500 500).
Proof. reflexivity. Qed.

End EngineFacts.

(** ** Storage beyond the round trip *)

Module StorageFacts.
Import Web BrowseTheWeb.

(** A run of two methods in a row. *)
Lemma run_bind {P A B : Type} (pw : Playwright P) (p : Prog A) (f : A -> Prog B) :
  forall b : Browser P,
    run pw (p ≫= f) b =
    match result (run pw p b) with
    | Ok a =>
        let o := run pw (f a) (final (run pw p b)) in
        mkOutcome (final o) (calls (run pw p b) ++ calls o) (result o)
    | Err e => mkOutcome (final (run pw p b)) (calls (run pw p b)) (Err e)
    end.
Proof.
  induction p as [a|e|c k IH]; intros b.
  - cbn. destruct (run pw (f a) b); reflexivity.
  - reflexivity.
  - change (Await c k ≫= f) with (Await c (fun x => k x ≫= f)).
    cbn [run]. destruct (answer pw c b) as [b' [x|e]]; [|reflexivity].
    rewrite IH. cbn [final calls result].
    destruct (result (run pw (k x) b')); reflexivity.
Qed.

Section Storage.

Context {J : Builtin.JsonObject}.

Lemma run_setStorageItem {P : Type} (pw : Playwright P) (b : Browser P) area key value :
  run pw (setStorageItem area key value) b =
  let text := default "undefined" (Builtin.stringify value) in
  mkOutcome (setItems area (<[key := text]> (items area b)) b)
            [setItem area key text] (Ok tt).
Proof. reflexivity. Qed.

(** What the getter returns is decided by the stored text alone. *)
Lemma result_getStorageItem {P : Type} (pw : Playwright P) (b b' : Browser P) area key :
  items area b !! key = items area b' !! key ->
  result (run pw (getStorageItem area key) b) =
  result (run pw (getStorageItem area key) b').
Proof.
  intros H. unfold getStorageItem. cbn. rewrite H.
  destruct (items area b' !! key) as [[|c r]|]; try reflexivity.
  destruct (Builtin.parse (String c r)); reflexivity.
Qed.

Lemma items_other_area {P : Type} area area' (m : gmap string string) (b : Browser P) :
  area <> area' -> items area' (setItems area m b) = items area' b.
Proof. destruct area, area'; intros H; try reflexivity; congruence. Qed.

Lemma result_after_set {P : Type} (pw : Playwright P) (b : Browser P)
    area key value area' key' :
  result (run pw (_ ← setStorageItem area key value; getStorageItem area' key') b) =
  result (run pw (getStorageItem area' key')
            (setItems area
               (<[key := default "undefined" (Builtin.stringify value)]> (items area b))
               b)).
Proof.
  rewrite run_bind, run_setStorageItem. cbn [result final calls]. reflexivity.
Qed.

(** X1: of two values set under one key the first leaves no trace, in
    local and in session storage and for any two values: the item stored
    is the text of the second, and the getter returns what it returns
    after the second value alone was set. *)
Theorem set_overwrites {P : Type} (pw : Playwright P) (b : Browser P) key first second :
  result (run pw (_ ← setLocalStorageItem key first;
                  _ ← setLocalStorageItem key second;
                  getLocalStorageItem key) b) =
  result (run pw (_ ← setLocalStorageItem key second; getLocalStorageItem key) b) /\
  result (run pw (_ ← setSessionStorageItem key first;
                  _ ← setSessionStorageItem key second;
                  getSessionStorageItem key) b) =
  result (run pw (_ ← setSessionStorageItem key second; getSessionStorageItem key) b) /\
  localItems (final (run pw (_ ← setLocalStorageItem key first;
                             setLocalStorageItem key second) b)) !! key =
  Some (default "undefined" (Builtin.stringify second)) /\
  sessionItems (final (run pw (_ ← setSessionStorageItem key first;
                               setSessionStorageItem key second) b)) !! key =
  Some (default "undefined" (Builtin.stringify second)).
Proof.
  assert (Hstored : forall area,
    items area (final (run pw (_ ← setStorageItem area key first;
                               setStorageItem area key second) b)) !! key =
    Some (default "undefined" (Builtin.stringify second))).
  { intros area. rewrite run_bind, !run_setStorageItem. cbn [result final calls].
    rewrite !BrowseTheWebFacts.items_setItems. apply lookup_insert_eq. }
  assert (H : forall area,
    result (run pw (_ ← setStorageItem area key first;
                    _ ← setStorageItem area key second;
                    getStorageItem area key) b) =
    result (run pw (_ ← setStorageItem area key second; getStorageItem area key) b)).
  { intros area. rewrite run_bind, run_setStorageItem. cbn [result final calls].
    rewrite !result_after_set. apply result_getStorageItem.
    rewrite !BrowseTheWebFacts.items_setItems, !lookup_insert_eq. reflexivity. }
  split; [apply H|]. split; [apply H|].
  split; [apply (Hstored localStorage) | apply (Hstored sessionStorage)].
Qed.

(** X2: setting an item changes what is read under no other key: the
    getter answers for another key what it answered before, whatever the
    value set. *)
Theorem set_leaves_other_keys {P : Type} (pw : Playwright P) (b : Browser P)
    key other value :
  key <> other ->
  result (run pw (_ ← setLocalStorageItem key value; getLocalStorageItem other) b) =
  result (run pw (getLocalStorageItem other) b) /\
  result (run pw (_ ← setSessionStorageItem key value; getSessionStorageItem other) b) =
  result (run pw (getSessionStorageItem other) b).
Proof.
  intros Hne.
  split; unfold setLocalStorageItem, getLocalStorageItem,
                setSessionStorageItem, getSessionStorageItem;
    rewrite result_after_set; apply result_getStorageItem;
    rewrite BrowseTheWebFacts.items_setItems; apply lookup_insert_ne, Hne.
Qed.

(** X3: the two storage areas are apart: setting an item of local
    storage changes nothing the session getter reads, under any key, and
    the other way round. *)
Theorem set_leaves_other_area {P : Type} (pw : Playwright P) (b : Browser P)
    key other value :
  result (run pw (_ ← setLocalStorageItem key value; getSessionStorageItem other) b) =
  result (run pw (getSessionStorageItem other) b) /\
  result (run pw (_ ← setSessionStorageItem key value; getLocalStorageItem other) b) =
  result (run pw (getLocalStorageItem other) b).
Proof.
  split; unfold setLocalStorageItem, getLocalStorageItem,
                setSessionStorageItem, getSessionStorageItem;
    rewrite result_after_set; apply result_getStorageItem;
    rewrite items_other_area by discriminate; reflexivity.
Qed.

(** X5: an item stored as the empty text reads as [undefined]: the
    getter does not hand it to JSON.parse, which rejects the empty
    text. *)
Theorem empty_item_reads_undefined {P : Type} (pw : Playwright P) (b : Browser P)
    area key :
  items area b !! key = Some EmptyString ->
  result (run pw (getStorageItem area key) b) = Ok Builtin.undefined /\
  JSON.parse EmptyString = None.
Proof.
  intros H. split; [|reflexivity]. unfold getStorageItem. cbn. rewrite H. reflexivity.
Qed.

End Storage.

Lemma set_leaves_other_keys_witness :
  result (run stillPage
            (_ ← setLocalStorageItem (J := JSON.fragment) "a" (JSON.JNumber 1);
             getLocalStorageItem (J := JSON.fragment) "b")
            emptyBrowser)
  = result (run stillPage (getLocalStorageItem (J := JSON.fragment) "b") emptyBrowser).
Proof.
  refine (proj1 (set_leaves_other_keys (J := JSON.fragment) stillPage emptyBrowser
                   "a" "b" (JSON.JNumber 1) _)).
  discriminate.
Defined.

(** X4: [undefined] does not round-trip.  The setter stores the text
    "undefined" for it, and the getter then fails with a SyntaxError
    where an unset key would have given [undefined]. *)
Theorem set_undefined_then_get_throws {P : Type} (pw : Playwright P) (b : Browser P) key :
  let afterSet :=
    run pw (setLocalStorageItem (J := JSON.fragment) key JSON.JUndefined) b in
  localItems (final afterSet) !! key = Some "undefined" /\
  result (run pw (_ ← setLocalStorageItem (J := JSON.fragment) key JSON.JUndefined;
                  getLocalStorageItem (J := JSON.fragment) key) b) = Err SyntaxError /\
  result (run pw (_ ← setSessionStorageItem (J := JSON.fragment) key JSON.JUndefined;
                  getSessionStorageItem (J := JSON.fragment) key) b) = Err SyntaxError.
Proof.
  cbv zeta. split; [cbn; apply lookup_insert_eq|].
  split; unfold setLocalStorageItem, getLocalStorageItem,
                setSessionStorageItem, getSessionStorageItem;
    rewrite result_after_set; unfold getStorageItem; cbn;
    rewrite lookup_insert_eq; reflexivity.
Qed.

Lemma empty_item_reads_undefined_witness :
  result (run stillPage (getLocalStorageItem (J := JSON.fragment) "k")
            (mkBrowser tt {[ "k" := EmptyString ]} ∅)) = Ok JSON.JUndefined.
Proof.
  refine (proj1 (empty_item_reads_undefined (J := JSON.fragment) stillPage
                   (mkBrowser tt {[ "k" := EmptyString ]} ∅) localStorage "k" _)).
  apply lookup_singleton_eq.
Defined.

Lemma final_check {P : Type} (pw : Playwright P) (b : Browser P) (c : StateCheck) :
  exists p, final (run pw (check c) b) = setPage p b.
Proof.
  destruct (BrowseTheWebFacts.check_shape c)
    as (selector & options & st & negated & m & ->).
  rewrite BrowseTheWebFacts.run_expectAfterLookup. cbv zeta.
  destruct (lookup pw selector (withState options st) (page b)) as [p [locator|e]];
    [|exists p; reflexivity].
  destruct (assertion pw locator negated m (timeoutOf options) p) as [p' [[]|e]];
    exists p'; reflexivity.
Qed.

(** X6: the state checks keep off the storage: whatever Playwright
    answers and however a check ends, the items of local and of session
    storage are what they were. *)
Theorem checks_leave_storage {P : Type} (pw : Playwright P) (b : Browser P)
    (c : StateCheck) :
  localItems (final (run pw (check c) b)) = localItems b /\
  sessionItems (final (run pw (check c) b)) = sessionItems b.
Proof.
  destruct (final_check pw b c) as [p ->]. split; reflexivity.
Qed.

(** X7: the state the caller puts into the options of a check is never
    used: each of the five checks is the same method whatever state the
    options carry, and each of the five with no options at all is the
    method it is with options that set nothing but a state. *)
Theorem checks_ignore_caller_state selector mode text value h sub t st st' :
  let given s := Some (mkSelectorOptions h sub t s) in
  let bare := Some (mkSelectorOptions None None None st) in
  checkVisibilityState selector mode (given st) =
    checkVisibilityState selector mode (given st') /\
  checkEnabledState selector mode (given st) =
    checkEnabledState selector mode (given st') /\
  checkEditableState selector mode (given st) =
    checkEditableState selector mode (given st') /\
  checkSelectorText selector text mode (given st) =
    checkSelectorText selector text mode (given st') /\
  checkSelectorValue selector value mode (given st) =
    checkSelectorValue selector value mode (given st') /\
  checkVisibilityState selector mode None = checkVisibilityState selector mode bare /\
  checkEnabledState selector mode None = checkEnabledState selector mode bare /\
  checkEditableState selector mode None = checkEditableState selector mode bare /\
  checkSelectorText selector text mode None = checkSelectorText selector text mode bare /\
  checkSelectorValue selector value mode None =
    checkSelectorValue selector value mode bare.
Proof. cbv zeta. repeat split; reflexivity. Qed.

End StorageFacts.

(** ** The Element question in a run *)

Module ElementRunFacts.
Import Web BrowseTheWeb Element Polarity.

Lemma checkMode_apply op e : checkMode (apply op e) = checkMode e.
Proof. destruct op; reflexivity. Qed.

Lemma checkMode_applyAll ops e : checkMode (applyAll ops e) = checkMode e.
Proof.
  revert e. induction ops as [|op ops IH]; intros e; [reflexivity|].
  change (applyAll (op :: ops) e) with (applyAll ops (apply op e)).
  rewrite (IH (apply op e)). apply checkMode_apply.
Qed.

(** After a mode operator the answer depends on the Element it was
    called on through its checkMode only. *)
Lemma answeredBy_apply op e e' :
  checkMode e = checkMode e' -> answeredBy (apply op e) = answeredBy (apply op e').
Proof.
  intros H. destruct op; unfold answeredBy, polarity; cbn; rewrite H; reflexivity.
Qed.

Lemma applyAll_snoc ops op e : applyAll (ops ++ [op]) e = apply op (applyAll ops e).
Proof. unfold applyAll. rewrite fold_left_app. reflexivity. Qed.

(** X8: of several mode operators called one after the other, the last
    one decides the question: the answer is the one of the Element with
    that operator alone, and no operator changes the checkMode the
    factory gave. *)
Theorem last_mode_operator_decides (ops : list ModeOperator) (op : ModeOperator)
    (e : Element) :
  answeredBy (applyAll (ops ++ [op]) e) = answeredBy (apply op e) /\
  checkMode (applyAll (ops ++ [op]) e) = checkMode e.
Proof.
  split; [|apply checkMode_applyAll].
  rewrite applyAll_snoc. apply answeredBy_apply, checkMode_applyAll.
Qed.

Lemma run_asActor {P A : Type} (pw : Playwright P) (method : Prog A) (b : Browser P) :
  run pw (asActor method) b =
  match abilityOf pw (page b) with
  | (p, Ok _) =>
      let o := run pw method (setPage p b) in
      mkOutcome (final o) (withAbilityTo :: calls o) (result o)
  | (p, Err e) => mkOutcome (setPage p b) [withAbilityTo] (Err e)
  end.
Proof.
  unfold asActor. cbn. destruct (abilityOf pw (page b)) as [p [[]|e]]; reflexivity.
Qed.

Lemma check_not_false {P : Type} (pw : Playwright P) (b : Browser P) (c : StateCheck) :
  result (run pw (check c) b) <> Ok false.
Proof.
  destruct (BrowseTheWebFacts.check_shape c)
    as (selector & options & st & negated & m & ->).
  rewrite BrowseTheWebFacts.run_expectAfterLookup. cbv zeta.
  destruct (lookup pw selector (withState options st) (page b)) as [p [locator|e]];
    [|discriminate].
  destruct (assertion pw locator negated m (timeoutOf options) p) as [p' [[]|e]];
    discriminate.
Qed.

(** X9: a question built through the public interface answers true or
    fails, never false.  It asks the actor for the ability first; when
    the actor does not have it, the question fails with that error and
    nothing is looked up; when the actor has it, what follows is one of
    the five state checks. *)
Theorem question_true_or_throw {P : Type} (pw : Playwright P) (b : Browser P)
    (f : Factory) (ops : list ModeOperator) :
  let o := run pw (answeredBy (applyAll ops (make f))) b in
  result o <> Ok false /\
  match abilityOf pw (page b) with
  | (_, Err e) => calls o = [withAbilityTo] /\ result o = Err e
  | (p, Ok _) =>
      exists c : StateCheck,
        calls o = withAbilityTo :: calls (run pw (check c) (setPage p b)) /\
        result o = result (run pw (check c) (setPage p b))
  end.
Proof.
  cbv zeta.
  assert (H : constructible (applyAll ops (make f))).
  { apply ElementFacts.constructible_applyAll.
    destruct f; apply ElementFacts.constructible_new. }
  destruct (ElementFacts.constructible_dispatches _ H) as [c ->].
  rewrite run_asActor.
  destruct (abilityOf pw (page b)) as [p [[]|e]]; cbn [result calls].
  - split; [apply check_not_false | exists c; split; reflexivity].
  - split; [discriminate | split; reflexivity].
Qed.

Lemma agrees_expectAfterLookup {P : Type} (pw : Playwright P) (b : Browser P)
    f selector options st negated m :
  denies negated m = negative f ->
  Forall (agrees f) (calls (run pw (expectAfterLookup selector options st negated m) b)).
Proof.
  intros H. rewrite BrowseTheWebFacts.run_expectAfterLookup. cbv zeta.
  destruct (lookup pw selector (withState options st) (page b)) as [p [locator|e]].
  - destruct (assertion pw locator negated m (timeoutOf options) p) as [p' [[]|e]];
      cbn [calls]; repeat constructor; exact H.
  - cbn [calls]. repeat constructor.
Qed.

Lemma checkMode_make f :
  String.eqb (checkMode (make f)) "toBe" = negb (negative f).
Proof. destruct f; reflexivity. Qed.

(** X10: the factory fixes which way every assertion goes.  In a run of
    a question built by toBe or toHave, each assertion made is a positive
    one (visible, enabled, editable, has the text, has the value); built
    by notToBe or notToHave, each is the denial (hidden, disabled, not
    editable, not the text, not the value), whatever mode operators
    followed the factory. *)
Theorem factory_fixes_polarity {P : Type} (pw : Playwright P) (b : Browser P)
    (f : Factory) (ops : list ModeOperator) :
  Forall (agrees f) (calls (run pw (answeredBy (applyAll ops (make f))) b)).
Proof.
  assert (H : constructible (applyAll ops (make f))).
  { apply ElementFacts.constructible_applyAll.
    destruct f; apply ElementFacts.constructible_new. }
  pose proof (checkMode_applyAll ops (make f)) as Hc.
  pose proof (checkMode_make f) as Hf. rewrite <- Hc in Hf.
  set (e := applyAll ops (make f)) in *.
  assert (Hrun : forall method : Prog bool,
            (forall b', Forall (agrees f) (calls (run pw method b'))) ->
            Forall (agrees f) (calls (run pw (asActor method) b))).
  { intros method Hm. rewrite run_asActor.
    destruct (abilityOf pw (page b)) as [p [[]|err]]; cbn [calls];
      constructor; try exact I; [apply Hm | constructor]. }
  destruct H as [Hm Hp]. unfold answeredBy, polarity.
  rewrite Hf.
  destruct (String.eqb_spec (mode e) "visible").
  { apply Hrun. intros b'. unfold checkVisibilityState.
    destruct (negative f) eqn:Hn; cbn; apply agrees_expectAfterLookup;
      rewrite Hn; reflexivity. }
  destruct (String.eqb_spec (mode e) "enabled").
  { apply Hrun. intros b'. unfold checkEnabledState.
    destruct (negative f) eqn:Hn; cbn; apply agrees_expectAfterLookup;
      rewrite Hn; reflexivity. }
  destruct (String.eqb_spec (mode e) "editable").
  { apply Hrun. intros b'. unfold checkEditableState.
    destruct (negative f) eqn:Hn; cbn; apply agrees_expectAfterLookup;
      rewrite Hn; reflexivity. }
  destruct (String.eqb_spec (mode e) "text").
  { apply Hrun. intros b'. unfold checkSelectorText.
    destruct (negative f) eqn:Hn; cbn; apply agrees_expectAfterLookup;
      rewrite Hn; reflexivity. }
  destruct (String.eqb_spec (mode e) "value") as [Hv|Hv].
  { destruct (Hp Hv) as [p ->]. apply Hrun. intros b'. unfold checkSelectorValue.
    destruct (negative f) eqn:Hn; cbn; apply agrees_expectAfterLookup;
      rewrite Hn; reflexivity. }
  cbn in Hm. intuition congruence.
Qed.

(** X11: a question keeps off the storage: however it ends, the items of
    local and of session storage are what they were. *)
Theorem question_leaves_storage {P : Type} (pw : Playwright P) (b : Browser P)
    (f : Factory) (ops : list ModeOperator) :
  let o := run pw (answeredBy (applyAll ops (make f))) b in
  localItems (final o) = localItems b /\ sessionItems (final o) = sessionItems b.
Proof.
  cbv zeta.
  assert (H : constructible (applyAll ops (make f))).
  { apply ElementFacts.constructible_applyAll.
    destruct f; apply ElementFacts.constructible_new. }
  destruct (ElementFacts.constructible_dispatches _ H) as [c ->].
  rewrite run_asActor.
  destruct (abilityOf pw (page b)) as [p [[]|e]]; cbn [final]; [|split; reflexivity].
  destruct (StorageFacts.final_check pw (setPage p b) c) as [p' ->].
  split; reflexivity.
Qed.

End ElementRunFacts.

(** ** The Set action *)

Module SetActionFacts.
Import Web BrowseTheWeb SetAction.

Section Storage.

Context {J : Builtin.JsonObject}.

(** X12: an item set by the Set action is read back by the getter of
    the same area as JSON.parse of the text JSON.stringify gave for it,
    when the actor has the ability and that text is not empty: the
    parsed value, or a SyntaxError where JSON.parse rejects the text.
    When the actor does not have the ability, the error of that is what
    the two steps end with. *)
Theorem set_action_round_trip {P : Type} (pw : Playwright P) (b : Browser P)
    key value text :
  Builtin.stringify value = Some text ->
  text <> EmptyString ->
  let viaLocal :=
    run pw (_ ← performAs (localStorageItem key value); getLocalStorageItem key) b in
  let viaSession :=
    run pw (_ ← performAs (sessionStorageItem key value); getSessionStorageItem key) b in
  let parsed :=
    match Builtin.parse text with
    | Some read => Ok read
    | None => Err SyntaxError
    end in
  match abilityOf pw (page b) with
  | (_, Ok _) => result viaLocal = parsed /\ result viaSession = parsed
  | (_, Err e) => result viaLocal = Err e /\ result viaSession = Err e
  end.
Proof.
  intros Hstr Hne. cbv zeta.
  assert (H : forall area,
    result (run pw (_ ← Element.asActor (setStorageItem area key value);
                    getStorageItem area key) b) =
    match abilityOf pw (page b) with
    | (_, Ok _) =>
        match Builtin.parse text with
        | Some read => Ok read
        | None => Err SyntaxError
        end
    | (_, Err e) => Err e
    end).
  { intros area. rewrite StorageFacts.run_bind, ElementRunFacts.run_asActor.
    destruct (abilityOf pw (page b)) as [p [[]|e]]; [|reflexivity].
    rewrite StorageFacts.run_setStorageItem. cbn [result final calls].
    rewrite Hstr. unfold getStorageItem. cbn.
    rewrite BrowseTheWebFacts.items_setItems, lookup_insert_eq.
    destruct text as [|c r]; [congruence|].
    destruct (Builtin.parse (String c r)); reflexivity. }
  pose proof (H localStorage) as Hl. pose proof (H sessionStorage) as Hse.
  change (performAs (localStorageItem key value))
    with (Element.asActor (setStorageItem localStorage key value)).
  change (performAs (sessionStorageItem key value))
    with (Element.asActor (setStorageItem sessionStorage key value)).
  unfold getLocalStorageItem, getSessionStorageItem. rewrite Hl, Hse.
  destruct (abilityOf pw (page b)) as [p [[]|e]]; split; reflexivity.
Qed.

(** X13: a Set action built by a factory writes once, in the area of its
    factory and under its key, after it asked the actor for the ability;
    the other area keeps its items.  When the actor does not have the
    ability nothing is written. *)
Theorem set_action_writes_own_area {P : Type} (pw : Playwright P) (b : Browser P)
    key value :
  let text := default "undefined" (Builtin.stringify value) in
  let local := run pw (performAs (localStorageItem key value)) b in
  let session := run pw (performAs (sessionStorageItem key value)) b in
  sessionItems (final local) = sessionItems b /\
  localItems (final session) = localItems b /\
  match abilityOf pw (page b) with
  | (_, Ok _) =>
      calls local = [withAbilityTo; setItem localStorage key text] /\
      calls session = [withAbilityTo; setItem sessionStorage key text] /\
      localItems (final local) = <[key := text]> (localItems b) /\
      sessionItems (final session) = <[key := text]> (sessionItems b)
  | (_, Err e) =>
      result local = Err e /\ result session = Err e /\
      localItems (final local) = localItems b /\
      sessionItems (final session) = sessionItems b
  end.
Proof.
  cbv zeta.
  change (performAs (localStorageItem key value))
    with (Element.asActor (setStorageItem localStorage key value)).
  change (performAs (sessionStorageItem key value))
    with (Element.asActor (setStorageItem sessionStorage key value)).
  rewrite !ElementRunFacts.run_asActor.
  destruct (abilityOf pw (page b)) as [p [[]|e]];
    rewrite ?StorageFacts.run_setStorageItem; cbn; auto 10.
Qed.

End Storage.

Lemma set_action_round_trip_witness :
  result (run stillPage
            (_ ← performAs (J := JSON.fragment)
                   (localStorageItem (J := JSON.fragment) "localKey"
                      (JSON.JString "localValue"));
             getLocalStorageItem (J := JSON.fragment) "localKey") emptyBrowser)
  = Ok (JSON.JString "localValue").
Proof.
  refine (eq_trans
            (proj1 (set_action_round_trip (J := JSON.fragment) stillPage emptyBrowser
                      "localKey" (JSON.JString "localValue")
                      (JSON.quote "localValue") eq_refl _)) _).
  - discriminate.
  - vm_compute. reflexivity.
Defined.

End SetActionFacts.

(** ** The other methods of the ability *)

Module AbilityFacts.
Import Web Actions Ability.

Lemma run_sequence {P A B : Type} (d : Driver P) (p : Prog A) (f : A -> Prog B) :
  forall b : Browser P,
    run d (p ≫= f) b =
    match result (run d p b) with
    | Ok a =>
        let o := run d (f a) (final (run d p b)) in
        mkOutcome (final o) (calls (run d p b) ++ calls o) (result o)
    | Err e => mkOutcome (final (run d p b)) (calls (run d p b)) (Err e)
    end.
Proof.
  induction p as [a|e|c k IH]; intros b.
  - cbn. destruct (run d (f a) b); reflexivity.
  - reflexivity.
  - change (Await c k ≫= f) with (Await c (fun x => k x ≫= f)).
    cbn [run]. destruct (answer d c b) as [b' [x|e]]; [|reflexivity].
    rewrite IH. cbn [final calls result].
    destruct (result (run d (k x) b')); reflexivity.
Qed.

(** A method of the earlier kind runs among the wider calls as it ran
    before. *)
Lemma run_lift {P A : Type} (d : Driver P) (p : Web.Prog A) :
  forall b : Browser P,
    run d (lift p) b =
    mkOutcome (Web.final (Web.run (playwright d) p b))
              (List.map earlier (Web.calls (Web.run (playwright d) p b)))
              (Web.result (Web.run (playwright d) p b)).
Proof.
  induction p as [a|e|c k IH]; intros b; [reflexivity | reflexivity |].
  cbn [lift run Web.run answer].
  destruct (Web.answer (playwright d) c b) as [b' [x|e]]; [|reflexivity].
  rewrite IH. reflexivity.
Qed.

Lemma run_await {P : Type} (d : Driver P) (c : Call) (b : Browser P) :
  run d (await c) b =
  mkOutcome (fst (answer d c b)) [c]
            (match snd (answer d c b) with Ok x => Ok x | Err e => Err e end).
Proof.
  unfold await. cbn [run]. destruct (answer d c b) as [b' [x|e]]; reflexivity.
Qed.

Lemma calls_lookupWith {P : Type} (d : Driver P) (b : Browser P) selector options :
  calls (run d (lookupWith selector options) b) = [lookupCall selector options].
Proof.
  destruct options as [given|]; unfold lookupWith, lookupCall, await; cbn [run].
  - destruct (answer d (earlier (recursiveLocatorLookup selector given)) b)
      as [b' [x|e]]; reflexivity.
  - destruct (answer d (lookupPlain selector) b) as [b' [x|e]]; reflexivity.
Qed.

Lemma run_perform {P : Type} (d : Driver P) (b : Browser P) locator g :
  @run P (Done g) d (await (perform locator g)) b =
  mkOutcome (setPage (fst (gesture d locator g (page b))) b) [perform locator g]
            (snd (gesture d locator g (page b))).
Proof.
  unfold await. cbn [run answer]. unfold onPage.
  destruct (gesture d locator g (page b)) as [p [x|e]]; reflexivity.
Qed.

(** X14: checkBox, fill, type, click, dblclick and selectOption, and
    hover called with no options, look the element up once, with the
    options of the caller as they are (no state is put in, and no
    options are passed on as none), and then act once on the locator the
    lookup answered, ending with what that gives.  When the lookup fails
    nothing is done to the page and the method ends with the error of
    the lookup.  hover called with options does the same, handing the
    lookup the options whole, modifiers among them, and the gesture the
    modifiers alone. *)
Theorem gesture_follows_lookup {P : Type} (d : Driver P) (b : Browser P)
    selector options (g : Gesture) :
  let found := run d (lookupWith selector options) b in
  let o := run d (onLocator selector options g) b in
  calls found = [lookupCall selector options] /\
  match result found with
  | Err e => calls o = calls found /\ result o = Err e
  | Ok locator =>
      calls o = (calls found ++ [perform locator g])%list /\
      result o = snd (gesture d locator g (page (final found)))
  end /\
  (forall given,
     let hovered := run d (hover selector (Some given)) b in
     let looked := hoverLookup d selector given (page b) in
     match snd looked with
     | Err e =>
         calls hovered = [lookupHovering selector given] /\
         result hovered = Err e /\
         page (final hovered) = fst looked
     | Ok locator =>
         calls hovered = [lookupHovering selector given;
                          perform locator (Actions.hover (modifiers given))] /\
         result hovered =
           snd (gesture d locator (Actions.hover (modifiers given)) (fst looked))
     end) /\
  hover selector None = onLocator selector None (Actions.hover None) /\
  checkBox selector options = onLocator selector options Actions.check /\
  (forall input, fill selector input options = onLocator selector options (Actions.fill input)) /\
  (forall input, type selector input options = onLocator selector options (Actions.type input)) /\
  click selector options = onLocator selector options Actions.click /\
  dblclick selector options = onLocator selector options Actions.dblclick /\
  (forall choice,
     selectOption selector choice options =
     onLocator selector options (Actions.selectOption choice)).
Proof.
  cbv zeta. split; [apply calls_lookupWith|].
  split; [|split; [|repeat split; reflexivity]].
  - unfold onLocator. rewrite run_sequence.
    destruct (result (run d (lookupWith selector options) b)) as [locator|e];
      [|split; reflexivity].
    cbv zeta. rewrite run_perform. cbn [calls result]. split; reflexivity.
  - intros given. unfold hover, await. cbn. unfold onPage.
    destruct (hoverLookup d selector given (page b)) as [p [locator|e]];
      cbn; [|repeat split; reflexivity].
    destruct (gesture d locator (Actions.hover (modifiers given)) p) as [p' [[]|e]];
      split; reflexivity.
Qed.

(** X15: dragAndDrop looks up the target before the source, each with
    its own part of the options, and then drags the source to the
    target, at position (0, 0).  When the target is not found the source
    is not looked up, and when either is not found nothing is dragged. *)
Theorem drag_looks_up_target_first {P : Type} (d : Driver P) (b : Browser P)
    sourceSelector targetSelector (options : option DragOptions) :
  let targetOptions := match options with Some given => target given | None => None end in
  let sourceOptions := match options with Some given => source given | None => None end in
  let o := run d (dragAndDrop sourceSelector targetSelector options) b in
  let foundTarget := run d (lookupWith targetSelector targetOptions) b in
  match result foundTarget with
  | Err e => calls o = [lookupCall targetSelector targetOptions] /\ result o = Err e
  | Ok targetLocator =>
      let foundSource :=
        run d (lookupWith sourceSelector sourceOptions) (final foundTarget) in
      match result foundSource with
      | Err e =>
          calls o = [lookupCall targetSelector targetOptions;
                     lookupCall sourceSelector sourceOptions] /\
          result o = Err e
      | Ok sourceLocator =>
          calls o = [lookupCall targetSelector targetOptions;
                     lookupCall sourceSelector sourceOptions;
                     perform sourceLocator (dragTo targetLocator 0 0)]
      end
  end.
Proof.
  cbv zeta. unfold dragAndDrop. rewrite run_sequence.
  set (topts := match options with Some given => target given | None => None end).
  set (sopts := match options with Some given => source given | None => None end).
  pose proof (calls_lookupWith d b targetSelector topts) as Ht.
  destruct (result (run d (lookupWith targetSelector topts) b)) as [tl|e];
    [|cbn [calls result]; rewrite Ht; split; reflexivity].
  cbv zeta. rewrite run_sequence.
  pose proof (calls_lookupWith d (final (run d (lookupWith targetSelector topts) b))
                sourceSelector sopts) as Hs.
  destruct (result (run d (lookupWith sourceSelector sopts)
                      (final (run d (lookupWith targetSelector topts) b)))) as [sl|e];
    cbn [calls result]; rewrite Ht, Hs; [|split; reflexivity].
  cbv zeta.
  pose proof (run_perform d
                (final (run d (lookupWith sourceSelector sopts)
                          (final (run d (lookupWith targetSelector topts) b))))
                sl (dragTo tl 0 0)) as Hp.
  cbn [Done] in Hp. rewrite Hp. reflexivity.
Qed.

(** X16: checkPageUrl and checkPageTitle make one assertion on the page
    and no lookup, with the options of the caller as they are; they end
    with true when the assertion holds and with its error when it does
    not, never with false.  Any mode but "toHaveUrl" (or "toHaveTitle")
    asserts the denial. *)
Theorem page_checks_true_or_throw {P : Type} (d : Driver P) (b : Browser P)
    mode expected options :
  let viaUrl := run d (checkPageUrl mode expected options) b in
  let viaTitle := run d (checkPageTitle mode expected options) b in
  let urlNegated := negb (String.eqb mode "toHaveUrl") in
  let titleNegated := negb (String.eqb mode "toHaveTitle") in
  result viaUrl <> Ok false /\ result viaTitle <> Ok false /\
  calls viaUrl = [expectPage urlNegated (toHaveURL expected) options] /\
  calls viaTitle = [expectPage titleNegated (toHaveTitle expected) options] /\
  result viaUrl =
    match snd (pageAssertion d urlNegated (toHaveURL expected) options (page b)) with
    | Ok _ => Ok true
    | Err e => Err e
    end /\
  result viaTitle =
    match snd (pageAssertion d titleNegated (toHaveTitle expected) options (page b)) with
    | Ok _ => Ok true
    | Err e => Err e
    end.
Proof.
  cbv zeta. unfold checkPageUrl, checkPageTitle.
  destruct (String.eqb mode "toHaveUrl"), (String.eqb mode "toHaveTitle");
    cbn; unfold onPage;
    repeat match goal with
           | |- context [pageAssertion d ?n ?m options (page b)] =>
               destruct (pageAssertion d n m options (page b)) as [? [[]|?]]
           end; cbn; repeat split; discriminate.
Qed.

Lemma result_lift {P A : Type} (d : Driver P) (p : Web.Prog A) (b : Browser P) :
  result (run d (lift p) b) = Web.result (Web.run (playwright d) p b).
Proof. rewrite run_lift. reflexivity. Qed.

Lemma run_removeStorageItem {P : Type} (d : Driver P) (b : Browser P) area key :
  run d (removeStorageItem area key) b =
  mkOutcome (setItems area (delete key (items area b)) b) [removeItem area key] (Ok tt).
Proof. reflexivity. Qed.

Lemma result_after_remove {P A : Type} (d : Driver P) (b : Browser P) area key
    (p : Web.Prog A) :
  result (run d (_ ← removeStorageItem area key; lift p) b) =
  Web.result (Web.run (playwright d) p (setItems area (delete key (items area b)) b)).
Proof.
  rewrite run_sequence, run_removeStorageItem. cbn [result final calls].
  apply result_lift.
Qed.

Section Storage.

Context {J : Builtin.JsonObject}.

(** X17: an item that was set and then removed reads as [undefined], in
    local and in session storage, whatever value was set. *)
Theorem removed_item_reads_undefined {P : Type} (d : Driver P) (b : Browser P)
    key value :
  result (run d (_ ← lift (BrowseTheWeb.setLocalStorageItem key value);
                 _ ← removeLocalStorageItem key;
                 lift (BrowseTheWeb.getLocalStorageItem key)) b)
    = Ok Builtin.undefined /\
  result (run d (_ ← lift (BrowseTheWeb.setSessionStorageItem key value);
                 _ ← removeSessionStorageItem key;
                 lift (BrowseTheWeb.getSessionStorageItem key)) b)
    = Ok Builtin.undefined.
Proof.
  assert (H : forall area,
    result (run d (_ ← lift (BrowseTheWeb.setStorageItem area key value);
                   _ ← removeStorageItem area key;
                   lift (BrowseTheWeb.getStorageItem area key)) b)
      = Ok Builtin.undefined).
  { intros area. rewrite run_sequence, run_lift, StorageFacts.run_setStorageItem.
    cbn [result final calls Web.result Web.final Web.calls].
    rewrite result_after_remove.
    apply BrowseTheWebFacts.getStorageItem_unset.
    rewrite !BrowseTheWebFacts.items_setItems. apply lookup_delete_eq. }
  split; apply H.
Qed.

(** X18: removing an item changes what is read under no other key of its
    area and under no key of the other area. *)
Theorem remove_leaves_the_rest {P : Type} (d : Driver P) (b : Browser P) key other :
  key <> other ->
  result (run d (_ ← removeLocalStorageItem key;
                 lift (BrowseTheWeb.getLocalStorageItem other)) b) =
  result (run d (lift (BrowseTheWeb.getLocalStorageItem other)) b) /\
  result (run d (_ ← removeSessionStorageItem key;
                 lift (BrowseTheWeb.getSessionStorageItem other)) b) =
  result (run d (lift (BrowseTheWeb.getSessionStorageItem other)) b) /\
  (forall any,
     result (run d (_ ← removeLocalStorageItem key;
                    lift (BrowseTheWeb.getSessionStorageItem any)) b) =
     result (run d (lift (BrowseTheWeb.getSessionStorageItem any)) b)) /\
  (forall any,
     result (run d (_ ← removeSessionStorageItem key;
                    lift (BrowseTheWeb.getLocalStorageItem any)) b) =
     result (run d (lift (BrowseTheWeb.getLocalStorageItem any)) b)).
Proof.
  intros Hne.
  unfold removeLocalStorageItem, removeSessionStorageItem,
         BrowseTheWeb.getLocalStorageItem, BrowseTheWeb.getSessionStorageItem.
  repeat split; intros; rewrite !result_after_remove, !result_lift;
    apply StorageFacts.result_getStorageItem;
    rewrite ?BrowseTheWebFacts.items_setItems, ?StorageFacts.items_other_area
      by discriminate;
    try reflexivity; apply lookup_delete_ne, Hne.
Qed.

End Storage.

Lemma remove_leaves_the_rest_witness :
  result (run stillDriver
            (_ ← removeLocalStorageItem "a";
             lift (BrowseTheWeb.getLocalStorageItem (J := JSON.fragment) "b"))
            (mkBrowser tt {[ "b" := "1" ]} ∅))
  = Ok (JSON.JNumber 1).
Proof.
  refine (eq_trans
            (proj1 (remove_leaves_the_rest (J := JSON.fragment) stillDriver
                      (mkBrowser tt {[ "b" := "1" ]} ∅) "a" "b" _)) _).
  - discriminate.
  - vm_compute. reflexivity.
Defined.

End AbilityFacts.

(** ** The Delete action *)

Module DeleteFacts.
Import Web Actions Delete.

Lemma chainAll_snoc cs c d : chainAll (cs ++ [c]) d = chain c (chainAll cs d).
Proof. unfold chainAll. rewrite fold_left_app. reflexivity. Qed.

Lemma chainAll_fields cs d :
  url (chainAll cs d) = url d /\
  headers (chainAll cs d) = default (headers d) (lastHeaders cs) /\
  responseBodyFormat (chainAll cs d) = default (responseBodyFormat d) (lastFormat cs).
Proof.
  induction cs as [|c cs IH] using rev_ind; [repeat split; reflexivity|].
  rewrite chainAll_snoc. unfold lastHeaders, lastFormat. rewrite !fold_left_app.
  fold (lastHeaders cs). fold (lastFormat cs).
  destruct IH as (Hu & Hh & Hf). destruct c; cbn; auto.
Qed.

(** X19: however headers and response format were chained after
    Delete.from(url), performing the action asks the actor for the API
    ability and then sends one request: a DELETE to the url given to
    from, with the headers chained last (those the action started with
    when none were chained) and the format chained last ("json" when
    none was). *)
Theorem delete_sends_last_chained (inherited : gmap string string) (target : string)
    (cs : list Chained) :
  performAs (chainAll cs (from inherited target)) =
  (_ ← await useAPIAs;
   await (sendRequest DELETE target
            (default inherited (lastHeaders cs))
            (default "json" (lastFormat cs)))).
Proof.
  destruct (chainAll_fields cs (from inherited target)) as (Hu & Hh & Hf).
  unfold performAs. rewrite Hu, Hh, Hf. reflexivity.
Qed.

End DeleteFacts.
